(** * A shallow embedding of the proxy connection engine

    The development follows [proxy_http.go] and [proxy_connect.go]:
    header hygiene, the error classifier, response writing, the CONNECT
    handler and the request loop.  Pure helpers are Rocq functions; code
    that talks to the network runs in a small monad that records every
    externally visible call in a trace. *)

From Stdlib Require Import ZArith Ascii String List Lia Permutation.
From stdpp Require Import gmap strings list fin_maps.

Local Open Scope string_scope.

(** ** Go strings *)

Module GoStrings.

(** [strings.HasPrefix]. *)
Fixpoint HasPrefix (s p : string) : bool :=
  match p, s with
  | EmptyString, _ => true
  | String _ _, EmptyString => false
  | String a p', String b s' =>
      if Ascii.eqb a b then HasPrefix s' p' else false
  end.

(** [strings.HasSuffix]: some tail of [s] is [suf]. *)
Fixpoint HasSuffix (s suf : string) : bool :=
  String.eqb s suf
  || match s with
     | EmptyString => false
     | String _ s' => HasSuffix s' suf
     end.

(** [strings.Contains]: [sub] is a prefix of some tail of [s]. *)
Fixpoint Contains (s sub : string) : bool :=
  HasPrefix s sub
  || match s with
     | EmptyString => false
     | String _ s' => Contains s' sub
     end.

(** The mathematical readings the boolean tests decide. *)
Definition starts_with (s p : string) : Prop := exists r, s = p ++ r.
Definition ends_in (s suf : string) : Prop := exists l, s = l ++ suf.
Definition has_substring (s sub : string) : Prop :=
  exists l r, s = l ++ sub ++ r.

End GoStrings.

(** ** Errors *)

Module Errors.
Import GoStrings.

(** A non-nil error value.  [io.EOF] is a sentinel compared by identity;
    a value implementing [net.Error] answers [Timeout()]; everything else
    is only known by its message. *)
Inductive GoError : Type :=
| EOF
| NetError (timeout : bool) (msg : string)
| OtherError (msg : string).

(** [err.Error()]. *)
Definition Error (e : GoError) : string :=
  match e with
  | EOF => "EOF"
  | NetError _ msg => msg
  | OtherError msg => msg
  end.

(** [err == io.EOF]. *)
Definition is_io_EOF (e : GoError) : bool :=
  match e with EOF => true | _ => false end.

(** [netErr, ok := err.(net.Error); ok && netErr.Timeout()]. *)
Definition is_net_timeout (e : GoError) : bool :=
  match e with NetError t _ => t | _ => false end.

(** A Go [error] interface value: [None] is [nil]. *)
Definition error := option GoError.

(** [isUnexpected], proxy_http.go:387. *)
Definition isUnexpected (err : error) : bool :=
  match err with
  | None => false
  | Some e =>
      if is_io_EOF e then false
      else if is_net_timeout e then false
      else
        let text := Error e in
        negb (HasSuffix text "EOF")
        && negb (Contains text "i/o timeout")
        && negb (Contains text "Use of idled network connection")
        && negb (Contains text "use of closed network connection")
        && negb (Contains text "broken pipe")
        && negb (Contains text "connection reset by peer")
  end.

(** The conditions the classifier treats as a normal end of a connection. *)
Definition expected_condition (err : error) : Prop :=
  match err with
  | None => True
  | Some e =>
      e = EOF
      \/ (exists msg, e = NetError true msg)
      \/ ends_in (Error e) "EOF"
      \/ has_substring (Error e) "i/o timeout"
      \/ has_substring (Error e) "use of closed network connection"
      \/ has_substring (Error e) "Use of idled network connection"
      \/ has_substring (Error e) "broken pipe"
      \/ has_substring (Error e) "connection reset by peer"
  end.

End Errors.

(** ** HTTP headers *)

Module Headers.

(** [http.Header] is [map[string][]string]. *)
Abbreviation Header := (gmap string (list string)).

Definition byte_in (lo hi : N) (c : ascii) : bool :=
  (lo <=? N_of_ascii c)%N && (N_of_ascii c <=? hi)%N.
Definition isLower : ascii -> bool := byte_in 97 122.
Definition isUpper : ascii -> bool := byte_in 65 90.
Definition isDigit : ascii -> bool := byte_in 48 57.

Fixpoint mem_ascii (c : ascii) (s : string) : bool :=
  match s with
  | EmptyString => false
  | String d s' => Ascii.eqb c d || mem_ascii c s'
  end.

(** The token bytes of a header field name (net/textproto). *)
Definition validHeaderFieldByte (c : ascii) : bool :=
  isLower c || isUpper c || isDigit c || mem_ascii c "!#$%&'*+-.^_`|~".

Fixpoint all_bytes (f : ascii -> bool) (s : string) : bool :=
  match s with
  | EmptyString => true
  | String c s' => f c && all_bytes f s'
  end.

Definition toUpper (c : ascii) : ascii := ascii_of_N (N_of_ascii c - 32).
Definition toLower (c : ascii) : ascii := ascii_of_N (N_of_ascii c + 32).

(** First letter and every letter after a dash upper case, the others
    lower case. *)
Fixpoint canonicalize (upper : bool) (s : string) : string :=
  match s with
  | EmptyString => EmptyString
  | String c s' =>
      let c' := if upper && isLower c then toUpper c
                else if negb upper && isUpper c then toLower c
                else c in
      String c' (canonicalize (Ascii.eqb c' "-") s')
  end.

(** [textproto.CanonicalMIMEHeaderKey]: a key holding a byte that is no
    token byte is returned as it is. *)
Definition CanonicalMIMEHeaderKey (s : string) : string :=
  if all_bytes validHeaderFieldByte s then canonicalize true s else s.

(** [Header.Add], [Header.Set], [Header.Get], [Header.Del]. *)
Definition Add (key value : string) (h : Header) : Header :=
  let k := CanonicalMIMEHeaderKey key in
  <[k := (default [] (h !! k) ++ [value])%list]> h.

Definition Set_ (key value : string) (h : Header) : Header :=
  <[CanonicalMIMEHeaderKey key := [value]]> h.

Definition Get (key : string) (h : Header) : string :=
  match h !! CanonicalMIMEHeaderKey key with
  | Some (v :: _) => v
  | _ => EmptyString
  end.

Definition Del (key : string) (h : Header) : Header :=
  delete (CanonicalMIMEHeaderKey key) h.

(** [contains], proxy_http.go:378. *)
Fixpoint contains (k : string) (s : list string) : bool :=
  match s with
  | [] => false
  | h :: s' => if String.eqb k h then true else contains k s'
  end.

(** The cases of the [switch] that skip a header without further ado. *)
Definition skippedHopByHop : list string :=
  ["Keep-Alive"; "Proxy-Authenticate"; "Proxy-Authorization"; "TE";
   "Trailers"; "Transfer-Encoding"; "Upgrade"].

(** The fixed hop-by-hop set of RFC 2616, section 13.5.1. *)
Definition hopByHop : list string := "Connection" :: skippedHopByHop.

(** One iteration of the [range] loop of [copyHeadersForForwarding]: the
    state is [dst] and the local [extraHopByHopHeaders]. *)
Definition copyHeader (st : Header * list string) (kvv : string * list string)
  : Header * list string :=
  let '(dst, extraHopByHopHeaders) := st in
  let '(k, vv) := kvv in
  if String.eqb k "Connection" then (dst, vv)
  else if contains k skippedHopByHop then (dst, extraHopByHopHeaders)
  else if negb (contains k extraHopByHopHeaders)
       then (fold_left (fun d v => Add k v d) vv dst, extraHopByHopHeaders)
       else (dst, extraHopByHopHeaders).

(** [copyHeadersForForwarding], proxy_http.go:352.  [src] is the source
    map as the sequence of entries in the order [range] visits them; Go
    leaves that order unspecified. *)
Definition copyHeadersForForwarding (dst : Header)
    (src : list (string * list string)) : Header :=
  fst (fold_left copyHeader src (dst, [])).

(** [visit] is a possible [range] order over the map [h]. *)
Definition range_of (h : Header) (visit : list (string * list string)) : Prop :=
  visit ≡ₚ map_to_list h.

End Headers.

(** ** Requests and responses *)

Module Http.
Import Headers.

Record Userinfo := { username : string; password : option string }.

Record URL := {
  Scheme : string;
  User : option Userinfo;
  UHost : string;          (* URL.Host *)
  Path : string }.

Record Request := {
  Method : string;
  RURL : URL;              (* req.URL *)
  Proto : string;
  ProtoMajor : Z;
  ProtoMinor : Z;
  RHeader : Header;        (* req.Header *)
  Host : string;
  Close : bool;
  RemoteAddr : string }.

Record Response := {
  StatusCode : Z;
  RespProtoMajor : Z;      (* resp.ProtoMajor *)
  RespProtoMinor : Z;
  RespHeader : Header;     (* resp.Header *)
  TransferEncoding : list string;
  RespClose : bool;        (* resp.Close *)
  RespRequest : option Request;
  Body : option (list Byte.byte) }.

Definition StatusOK : Z := 200.
Definition StatusBadGateway : Z := 502.
Definition MethodConnect : string := "CONNECT".

(** [&http.Response{StatusCode: code}]: every other field is zero. *)
Definition emptyResponse (code : Z) : Response :=
  {| StatusCode := code; RespProtoMajor := 0; RespProtoMinor := 0;
     RespHeader := ∅; TransferEncoding := []; RespClose := false;
     RespRequest := None; Body := None |}.

Definition with_Header (h : Header) (r : Request) : Request :=
  {| Method := Method r; RURL := RURL r; Proto := Proto r;
     ProtoMajor := ProtoMajor r; ProtoMinor := ProtoMinor r; RHeader := h;
     Host := Host r; Close := Close r; RemoteAddr := RemoteAddr r |}.

Definition with_URL (u : URL) (r : Request) : Request :=
  {| Method := Method r; RURL := u; Proto := Proto r;
     ProtoMajor := ProtoMajor r; ProtoMinor := ProtoMinor r;
     RHeader := RHeader r; Host := Host r; Close := Close r;
     RemoteAddr := RemoteAddr r |}.

Definition with_Host (h : string) (r : Request) : Request :=
  {| Method := Method r; RURL := RURL r; Proto := Proto r;
     ProtoMajor := ProtoMajor r; ProtoMinor := ProtoMinor r;
     RHeader := RHeader r; Host := h; Close := Close r;
     RemoteAddr := RemoteAddr r |}.

Definition with_RemoteAddr (a : string) (r : Request) : Request :=
  {| Method := Method r; RURL := RURL r; Proto := Proto r;
     ProtoMajor := ProtoMajor r; ProtoMinor := ProtoMinor r;
     RHeader := RHeader r; Host := Host r; Close := Close r;
     RemoteAddr := a |}.

(** [req.Proto = "HTTP/1.1"; req.ProtoMajor = 1; req.ProtoMinor = 1;
    req.Close = false]. *)
Definition force_HTTP11_keepalive (r : Request) : Request :=
  {| Method := Method r; RURL := RURL r; Proto := "HTTP/1.1";
     ProtoMajor := 1; ProtoMinor := 1; RHeader := RHeader r;
     Host := Host r; Close := false; RemoteAddr := RemoteAddr r |}.

Definition with_Scheme (s : string) (u : URL) : URL :=
  {| Scheme := s; User := User u; UHost := UHost u; Path := Path u |}.

Definition with_UHost (h : string) (u : URL) : URL :=
  {| Scheme := Scheme u; User := User u; UHost := h; Path := Path u |}.

(** [cloneURL], proxy_http.go:342: a copy of the value. *)
Definition cloneURL (i : URL) : URL :=
  let out := i in
  match User i with
  | Some u => {| Scheme := Scheme out; User := Some u; UHost := UHost out;
                 Path := Path out |}
  | None => out
  end.

(** [req.UserAgent()] is [req.Header.Get("User-Agent")]. *)
Definition UserAgent (r : Request) : string := Get "User-Agent" (RHeader r).

Section Range.
(** The order in which [range] visits the entries of a header map. *)
Variable range : Header -> list (string * list string).

(** [prepareRequest], proxy_http.go:290. *)
Definition prepareRequest (req : Request) : Request :=
  let req := force_HTTP11_keepalive req in
  let newHeader := copyHeadersForForwarding ∅ (range (RHeader req)) in
  let newHeader := Set_ "Host" (Host req) newHeader in
  let req := with_Header newHeader req in
  let req := with_URL (cloneURL (RURL req)) req in
  let req := if String.eqb (Scheme (RURL req)) ""
             then with_URL (with_Scheme "http" (RURL req)) req
             else req in
  let req := with_URL (with_UHost (Host req) (RURL req)) req in
  let userAgent := UserAgent req in
  if String.eqb userAgent ""
  then with_Header (Del "User-Agent" (RHeader req)) req
  else with_Header (Set_ "User-Agent" userAgent (RHeader req)) req.

(** [prepareResponse], proxy_http.go:326; [now] is
    [time.Now().Format(time.RFC850)]. *)
Definition prepareResponse (now : string) (resp : Response)
    (belowHTTP11 : bool) : Response :=
  let origHeader := RespHeader resp in
  let header := copyHeadersForForwarding ∅ (range origHeader) in
  let header := if String.eqb (Get "Date" header) ""
                then Set_ "Date" now header else header in
  {| StatusCode := StatusCode resp;
     RespProtoMajor := RespProtoMajor resp;
     RespProtoMinor := RespProtoMinor resp;
     RespHeader := header;
     TransferEncoding := if belowHTTP11 then [] else TransferEncoding resp;
     RespClose := RespClose resp;
     RespRequest := RespRequest resp;
     Body := Body resp |}.
End Range.

(** [resp.ProtoAtLeast(major, minor)] of net/http. *)
Definition ProtoAtLeast (resp : Response) (major minor : Z) : bool :=
  (major <? RespProtoMajor resp)%Z
  || ((RespProtoMajor resp =? major)%Z && (minor <=? RespProtoMinor resp)%Z).

End Http.

(** ** Connections, readers and writers *)

Module Net.

(** A [net.Conn]: a connection known by an identity, possibly wrapped. *)
Inductive Conn : Type :=
| RawConn (id : nat)
| Preconn (c : Conn) (head : list Byte.byte)   (* preconn.Wrap(c, head) *)
| NoCloseConn (c : Conn).                      (* &noCloseConn{c} *)

(** An [io.Reader]. *)
Inductive Reader : Type :=
| ConnReader (c : Conn)
| MultiReader (head : list Byte.byte) (tail : Reader)
| StreamReader (id : nat).

(** An [io.Writer] a response is written to. *)
Inductive Writer : Type :=
| ToConn (c : Conn)
| TeeToBuffer (c : Conn)     (* io.MultiWriter(downstream, buffer) *)
| Discard.                   (* ioutil.Discard *)

(** The identity of a [[]byte] handed out by the buffer source. *)
Definition Buffer := nat.

End Net.

(** ** The request context *)

Module Ctx.
Import Net.

(** The values the engine keeps in the context, one field per key. *)
Record Context := {
  noRespondOkay : option string;      (* ctxKeyNoRespondOkay *)
  upstreamAddrValue : option string;  (* ctxKeyUpstreamAddr *)
  upstreamValue : option Conn;        (* ctxKeyUpstream *)
  origURLSchemeValue : option string; (* ctxKeyOrigURLScheme *)
  origURLHostValue : option string;   (* ctxKeyOrigURLHost *)
  origHostValue : option string;      (* ctxKeyOrigHost *)
  requestNumber : nat }.

Definition background : Context :=
  {| noRespondOkay := None; upstreamAddrValue := None; upstreamValue := None;
     origURLSchemeValue := None; origURLHostValue := None;
     origHostValue := None; requestNumber := 1 |}.

(** [ctx.WithValue(key, v)] for each key. *)
Definition WithNoRespondOkay (v : option string) (c : Context) : Context :=
  {| noRespondOkay := v; upstreamAddrValue := upstreamAddrValue c;
     upstreamValue := upstreamValue c;
     origURLSchemeValue := origURLSchemeValue c;
     origURLHostValue := origURLHostValue c;
     origHostValue := origHostValue c; requestNumber := requestNumber c |}.

Definition WithUpstreamAddr (v : option string) (c : Context) : Context :=
  {| noRespondOkay := noRespondOkay c; upstreamAddrValue := v;
     upstreamValue := upstreamValue c;
     origURLSchemeValue := origURLSchemeValue c;
     origURLHostValue := origURLHostValue c;
     origHostValue := origHostValue c; requestNumber := requestNumber c |}.

Definition WithUpstream (v : option Conn) (c : Context) : Context :=
  {| noRespondOkay := noRespondOkay c;
     upstreamAddrValue := upstreamAddrValue c; upstreamValue := v;
     origURLSchemeValue := origURLSchemeValue c;
     origURLHostValue := origURLHostValue c;
     origHostValue := origHostValue c; requestNumber := requestNumber c |}.

Definition WithOrig (scheme host hostHeader : string) (c : Context) : Context :=
  {| noRespondOkay := noRespondOkay c;
     upstreamAddrValue := upstreamAddrValue c;
     upstreamValue := upstreamValue c;
     origURLSchemeValue := Some scheme; origURLHostValue := Some host;
     origHostValue := Some hostHeader; requestNumber := requestNumber c |}.

(** Modelled from the spec: the context accessors of the repository's
    [context.go] are not among the sources.  The spec's data model has the
    context carry the upstream connection once dialed, the upstream address
    once known, the captured scheme, host and host header and the request
    sequence number; an absent string reads as the empty string. *)
Definition upstreamConn (c : Context) : option Conn := upstreamValue c.
Definition upstreamAddr (c : Context) : string := default "" (upstreamAddrValue c).
Definition origURLScheme (c : Context) : string := default "" (origURLSchemeValue c).
Definition origURLHost (c : Context) : string := default "" (origURLHostValue c).
Definition origHost (c : Context) : string := default "" (origHostValue c).

(** Modelled from the spec: [IncrementRequestNumber] of the missing
    [filters] package; the loop increments the request sequence number in
    the context. *)
Definition IncrementRequestNumber (c : Context) : Context :=
  {| noRespondOkay := noRespondOkay c;
     upstreamAddrValue := upstreamAddrValue c;
     upstreamValue := upstreamValue c;
     origURLSchemeValue := origURLSchemeValue c;
     origURLHostValue := origURLHostValue c;
     origHostValue := origHostValue c;
     requestNumber := S (requestNumber c) |}.

End Ctx.

(** ** Effects: the trace of external calls *)

Module Effects.
Import Headers Http Net Errors.

Inductive LogLevel := LTrace | LDebug | LError.

(** Every call that leaves the engine. *)
Inductive Event : Type :=
| EvDial (isConnect : bool) (network addr : string)   (* proxy.Dial *)
| EvResponseWrite (out : Writer) (resp : Response)    (* resp.Write *)
| EvBodyClose                                         (* resp.Body.Close *)
| EvLog (level : LogLevel) (msg : string)
| EvReadRequest (r : Reader)                          (* http.ReadRequest *)
| EvMITM (down up : Conn)                             (* mitmIC.MITM *)
| EvHandshake (up : Conn)
| EvPeekRequest (down : Conn)    (* http.ReadRequest over reconn.Wrap *)
| EvGet (b : Buffer)                                  (* BufferSource.Get *)
| EvPut (b : Buffer)                                  (* BufferSource.Put *)
| EvCopyBuffer (dst : Conn) (data : list Byte.byte) (buf : Buffer)
| EvBidiCopy (up down : Conn) (bufOut bufIn : Buffer) (* netx.BidiCopy *)
| EvClose (c : Conn)
| EvCloseIdleConnections
| EvRequestAware                                      (* handleRequestAware *)
| EvResponseAware                                     (* handleResponseAware *)
| EvRoundTrip (req : Request) (via : option Conn).

Definition Trace := list Event.

(** What the outside answers.  Every answer may depend on all that has
    happened so far.  [w_errors_New] is [errors.New] of getlantern/errors, a
    library outside the repository: the engine only returns the error value
    it builds from a format and a cause, so that value is an answer of the
    outside too, and nothing is fixed about its message. *)
Record World := {
  w_range : Header -> list (string * list string);
  w_now : Trace -> string;
  w_dial : Trace -> bool -> string -> string -> Conn + GoError;
  w_write : Trace -> Writer -> Response -> error;
  w_readRequest : Trace -> Reader -> Request + GoError;
  w_buffered : Trace -> list Byte.byte;
  w_remoteAddr : Conn -> option string;
  w_mitm : Trace -> Conn -> Conn -> (Conn * Conn * bool) + GoError;
  w_handshake : Trace -> Conn -> error;
  w_peek : Trace -> Conn -> (Request + GoError) * list Byte.byte;
  w_get : Trace -> Buffer;
  w_copy : Trace -> Conn -> list Byte.byte -> error;
  w_bidi : Trace -> Conn -> Conn -> error * error;
  w_close : Trace -> Conn -> error;
  w_idle : Trace -> Request -> option Conn;
  w_exchange : Trace -> Request -> option Conn -> option Response * error;
  w_errors_New : string -> error -> GoError }.

(** A computation reads and extends the trace; [None] is a run that the
    model cut short for lack of fuel. *)
Definition M (A : Type) : Type := Trace -> option A * Trace.

Definition ret {A} (a : A) : M A := fun t => (Some a, t).

Definition bind {A B} (m : M A) (k : A -> M B) : M B :=
  fun t => match m t with
           | (Some a, t') => k a t'
           | (None, t') => (None, t')
           end.

Definition out_of_fuel {A} : M A := fun t => (None, t).

(** Perform a call: record it, and answer from the trace before it. *)
Definition call {A} (e : Event) (answer : Trace -> A) : M A :=
  fun t => (Some (answer t), (t ++ [e])%list).

Definition emit (e : Event) : M unit := call e (fun _ => tt).

Definition query {A} (answer : Trace -> A) : M A :=
  fun t => (Some (answer t), t).

End Effects.

#[global] Instance M_ret : MRet Effects.M := @Effects.ret.
#[global] Instance M_bind : MBind Effects.M :=
  fun A B k m => Effects.bind m k.

(** ** The filter chain *)

Module Filters.
Import Http Net Ctx Errors Effects.

(** What a filter or a terminal step returns: [(resp, ctx, err)]. *)
Definition FilterResult : Type := option Response * Context * error.

Definition Next : Type := Context -> Request -> M FilterResult.
Definition Filter : Type := Context -> Request -> Next -> M FilterResult.

(** Modelled from the spec: [filters.Join] is in the repository's [filters]
    package, which is not among the sources.  Chains compose by
    [Join(outer, inner)]: outer receives a [next] that, when invoked, calls
    inner. *)
Definition Join (outer inner : Filter) : Filter :=
  fun ctx req next => outer ctx req (fun ctx' req' => inner ctx' req' next).

(** Modelled from the spec: [filters.ShortCircuit] is in the missing
    [filters] package.  A filter short-circuits by returning a synthesized
    response without calling [next]: the response goes back with the context
    and no error. *)
Definition ShortCircuit (ctx : Context) (req : Request) (resp : Response)
  : FilterResult := (Some resp, ctx, None).

(** Modelled from the spec: [filters.Fail] is in the missing [filters]
    package.  A failure returns a response with the given status through the
    error path: the response, the context and the error. *)
Definition Fail (ctx : Context) (req : Request) (statusCode : Z)
    (err : GoError) : FilterResult :=
  (Some (emptyResponse statusCode), ctx, Some err).

(** Modelled from the spec: [filters.WrapContext] and [withAwareConn] are
    not among the sources; the wrapped context carries the same values. *)
Definition WrapContext (ctx : Context) (downstream : Conn) : Context := ctx.

(** [defaultFilter], proxy_http.go:411. *)
Definition defaultFilter : Filter := fun ctx req next => next ctx req.

(** [defaultOnError], proxy_http.go:415. *)
Definition defaultOnError (ctx : Context) (req : option Request)
    (read : bool) (err : GoError) : option Response := None.

(** The anonymous filter of [applyHTTPDefaults], proxy_http.go:30. *)
Definition idleTimeoutFilter : Filter := fun ctx req next => next ctx req.

End Filters.

(** ** Options *)

Module Options.
Import Headers Http Net Ctx Errors Effects Filters.

Definition OnErrorFunc : Type :=
  Context -> option Request -> bool -> GoError -> option Response.

(** The fields of [Opts] the two files read; a [nil] field is [None].
    [addIdleKeepAlive] is a method defined outside these files and is taken
    as it comes. *)
Record Opts := {
  Filter_ : option Filter;
  OnError : option OnErrorFunc;
  IdleTimeout : Z;
  OKWaitsForUpstream : bool;
  mitmIC : bool;                  (* whether an interceptor is installed *)
  addIdleKeepAlive : Header -> Header }.

(** [applyHTTPDefaults], proxy_http.go:21. *)
Definition applyHTTPDefaults (opts : Opts) : Opts :=
  let filter := match Filter_ opts with
                | None => defaultFilter
                | Some f => f
                end in
  let onError := match OnError opts with
                 | None => defaultOnError
                 | Some f => f
                 end in
  let filter := if (0 <? IdleTimeout opts)%Z
                then Join idleTimeoutFilter filter
                else filter in
  {| Filter_ := Some filter; OnError := Some onError;
     IdleTimeout := IdleTimeout opts;
     OKWaitsForUpstream := OKWaitsForUpstream opts;
     mitmIC := mitmIC opts;
     addIdleKeepAlive := addIdleKeepAlive opts |}.

(** [proxy.Filter.Apply] and [proxy.OnError] once the defaults are in. *)
Definition Filter_Apply (proxy : Opts) : Filter :=
  match Filter_ proxy with Some f => f | None => defaultFilter end.

Definition call_OnError (proxy : Opts) : OnErrorFunc :=
  match OnError proxy with Some f => f | None => defaultOnError end.

End Options.

(** ** The engine *)

Module Engine.
Import Headers Http Net Ctx Errors Effects Filters Options.

(** [maxHTTPSize = 2 << 15], proxy_connect.go:24. *)
Definition maxHTTPSize : Z := Z.shiftl 2 15.

(** [reconn.ErrOverflowed]. *)
Definition ErrOverflowed : GoError := OtherError "overflowed".

(** [downstreamRR.Rereader()] of getlantern/reconn: the wrapper keeps the
    bytes it delivered, up to its limit; past the limit they cannot be read
    again. *)
Definition Rereader (consumed : list Byte.byte)
  : list Byte.byte + GoError :=
  if (maxHTTPSize <? Z.of_nat (length consumed))%Z
  then inr ErrOverflowed
  else inl consumed.

Definition with_RespRequest (req : option Request) (r : Response) : Response :=
  {| StatusCode := StatusCode r; RespProtoMajor := RespProtoMajor r;
     RespProtoMinor := RespProtoMinor r; RespHeader := RespHeader r;
     TransferEncoding := TransferEncoding r; RespClose := RespClose r;
     RespRequest := req; Body := Body r |}.

Definition with_RespProto (major minor : Z) (r : Response) : Response :=
  {| StatusCode := StatusCode r; RespProtoMajor := major;
     RespProtoMinor := minor; RespHeader := RespHeader r;
     TransferEncoding := TransferEncoding r; RespClose := RespClose r;
     RespRequest := RespRequest r; Body := Body r |}.

Definition with_RespHeader (h : Header) (r : Response) : Response :=
  {| StatusCode := StatusCode r; RespProtoMajor := RespProtoMajor r;
     RespProtoMinor := RespProtoMinor r; RespHeader := h;
     TransferEncoding := TransferEncoding r; RespClose := RespClose r;
     RespRequest := RespRequest r; Body := Body r |}.

Section WithProxy.
Variable W : World.
Variable proxy : Opts.

(** The calls that leave the engine. *)
Definition Dial (ctx : Context) (isConnect : bool) (network addr : string)
  : M (Conn + GoError) :=
  call (EvDial isConnect network addr)
       (fun t => w_dial W t isConnect network addr).

Definition log (level : LogLevel) (msg : string) : M unit :=
  emit (EvLog level msg).

Definition ReadRequest (r : Reader) : M (Request + GoError) :=
  call (EvReadRequest r) (fun t => w_readRequest W t r).

Definition conn_Close (c : Conn) : M error :=
  call (EvClose c) (fun t => w_close W t c).

(** [errors.New(format, err)]. *)
Definition errors_New (format : string) (cause : error) : GoError :=
  w_errors_New W format cause.

Definition MITM (downstream upstream : Conn)
  : M (Conn * Conn * bool + GoError) :=
  call (EvMITM downstream upstream) (fun t => w_mitm W t downstream upstream).

Definition BufferSource_Get : M Buffer :=
  fun t => let b := w_get W t in (Some b, (t ++ [EvGet b])%list).

Definition BufferSource_Put (b : Buffer) : M unit := emit (EvPut b).

(** The part of [writeResponse] (proxy_http.go:259) before [resp.Write]:
    the writer and the response that go on the wire. *)
Definition responseOnWire (now : string) (downstream : Writer)
    (req : option Request) (resp : Response) : Writer * Response :=
  let resp := match RespRequest resp with
              | None => with_RespRequest req resp
              | Some _ => resp
              end in
  let out := downstream in
  let resp := if (RespProtoMajor resp =? 0)%Z
              then with_RespProto 1 1 resp else resp in
  let belowHTTP11 := negb (ProtoAtLeast resp 1 1) in
  if belowHTTP11 && (StatusCode resp <? 200)%Z
  then (Discard, resp)
  else
    let resp := prepareResponse (w_range W) now resp belowHTTP11 in
    (out, with_RespHeader (addIdleKeepAlive proxy (RespHeader resp)) resp).

(** [writeResponse], proxy_http.go:259. *)
Definition writeResponse (downstream : Writer) (req : option Request)
    (resp : Response) : M error :=
  now ← query (w_now W);
  let '(out, resp) := responseOnWire now downstream req resp in
  err ← call (EvResponseWrite out resp) (fun t => w_write W t out resp);
  _ ← match err, Body resp with
      | Some _, Some _ => emit EvBodyClose
      | _, _ => mret tt
      end;
  _ ← log LDebug "Wrote response";
  mret err.

(** [badGateway], proxy_connect.go:189. *)
Definition badGateway (ctx : Context) (req : Request) (err : GoError)
  : M FilterResult :=
  _ ← log LDebug "Responding BadGateway";
  mret (Fail ctx req StatusBadGateway err).

(** [nextCONNECT], proxy_connect.go:48.  The closure [respondOK] updates the
    pair of locals [(resp, nextCtx)]. *)
Definition nextCONNECT (downstream : Conn) : Next :=
  fun ctx modifiedReq =>
    let suppressOK := bool_decide (noRespondOkay ctx ≠ None) in
    let resp : option Response := None in
    let nextCtx := WithUpstreamAddr (Some (UHost (RURL modifiedReq))) ctx in
    let respondOK (st : option Response * Context) :=
      if negb suppressOK
      then let '(r, c, _) := ShortCircuit (snd st) modifiedReq
                               (emptyResponse StatusOK) in (r, c)
      else st in
    if negb (OKWaitsForUpstream proxy) then
      let '(resp, nextCtx) := respondOK (resp, nextCtx) in
      mret (resp, nextCtx, None)
    else
      d ← Dial ctx true "tcp" (UHost (RURL modifiedReq));
      match d with
      | inr err =>
          if OKWaitsForUpstream proxy then badGateway ctx modifiedReq err
          else
            _ ← log LError (Error err);
            mret (None, ctx, Some err)
      | inl upstream =>
          let '(resp, nextCtx) := respondOK (resp, nextCtx) in
          let nextCtx := WithUpstream (Some upstream) nextCtx in
          mret (resp, nextCtx, None)
      end.

(** Lines 164 to 186 of [proceedWithConnect]: two buffers, the replay of
    what the failed parse consumed, the two-way copy, and the deferred
    [Put]s, which run last in first out. *)
Definition pipeData (rr : option (list Byte.byte)) (upstream downstream : Conn)
  : M error :=
  bufOut ← BufferSource_Get;
  bufIn ← BufferSource_Get;
  result ←
    (copyErr ← match rr with
               | Some data =>
                   call (EvCopyBuffer upstream data bufOut)
                        (fun t => w_copy W t upstream data)
               | None => mret None
               end;
     match copyErr with
     | Some _ =>
         mret (Some (errors_New "Error copying initial data to upstream: "
                                copyErr))
     | None =>
         '(writeErr, readErr) ←
           call (EvBidiCopy upstream downstream bufOut bufIn)
                (fun t => w_bidi W t upstream downstream);
         if isUnexpected readErr
         then mret (Some (errors_New "Error piping data to downstream: " readErr))
         else if isUnexpected writeErr
         then mret (Some (errors_New "Error piping data to upstream: " writeErr))
         else mret None
     end);
  _ ← BufferSource_Put bufIn;
  _ ← BufferSource_Put bufOut;
  mret result.

(** How lines 120 to 162 of [proceedWithConnect] end: with a [return], or by
    falling through to the pipe with the current [rr], [downstream] and
    [upstream]. *)
Inductive MitmOutcome : Type :=
| Returned (result : error) (upstream : Conn)
| FallThrough (rr : option (list Byte.byte)) (downstream upstream : Conn).

Section Reentry.
(** [proxy.handle], which the tunnel re-enters for decrypted HTTP. *)
Variable handle : Context -> Reader -> Conn -> option Conn -> M error.

Definition mitmStage (ctx : Context) (upstreamAddr : string)
    (upstream downstream : Conn) : M MitmOutcome :=
  if mitmIC proxy then
    m ← MITM downstream upstream;
    match m : Conn * Conn * bool + GoError with
    | inr err =>
        _ ← log LError "Unable to MITM";
        mret (Returned (Some (errors_New "Unable to MITM connection: " (Some err)))
                       upstream)
    | inl (downstreamMITM, upstreamMITM, mitming) =>
        let downstream := downstreamMITM in
        let upstream := upstreamMITM in
        handshakeErr ← (if mitming
                        then call (EvHandshake upstream)
                                  (fun t => w_handshake W t upstream)
                        else mret None);
        match handshakeErr with
        | Some _ =>
            _ ← log LError "HandshakeErr";
            mret (Returned handshakeErr upstream)
        | None =>
            if mitming then
              '(peek, consumed) ←
                call (EvPeekRequest downstream)
                     (fun t => w_peek W t downstream);
              match Rereader consumed with
              | inr rrErr =>
                  mret (Returned
                          (Some (errors_New "Unable to re-read data: " (Some rrErr)))
                          upstream)
              | inl rr =>
                  match peek with
                  | inl _ =>
                      let fullDownstream :=
                        MultiReader rr (ConnReader downstream) in
                      let ctx := WithUpstreamAddr None (WithUpstream None ctx) in
                      r ← handle ctx fullDownstream downstream (Some upstream);
                      mret (Returned r upstream)
                  | inr _ => mret (FallThrough (Some rr) downstream upstream)
                  end
              end
            else mret (FallThrough None downstream upstream)
        end
    end
  else mret (FallThrough None downstream upstream).

(** [proceedWithConnect], proxy_connect.go:106.  The deferred close reads
    the variable [upstream] when the function returns. *)
Definition proceedWithConnect (ctx : Context) (upstreamAddr : string)
    (upstream : option Conn) (downstream : Conn) : M error :=
  d ← match upstream with
      | None => Dial ctx true "tcp" upstreamAddr
      | Some u => mret (inl u)
      end;
  match d with
  | inr dialErr => mret (Some dialErr)
  | inl upstream =>
      '(result, upstream) ←
        (o ← mitmStage ctx upstreamAddr upstream downstream;
         match o with
         | Returned result upstream => mret (result, upstream)
         | FallThrough rr downstream upstream =>
             result ← pipeData rr upstream downstream;
             mret (result, upstream)
         end);
      closeErr ← conn_Close upstream;
      _ ← match closeErr with
          | Some _ => log LTrace "Error closing upstream connection"
          | None => mret tt
          end;
      mret result
  end.

(** The transport of [handle] (proxy_http.go:104): with a supplied upstream
    it always uses that connection and does not close it; otherwise it
    reuses an idle connection or dials through [proxy.Dial] and tells the
    request-aware wrappers. *)
Definition RoundTrip (upstream : option Conn) (ctx : Context) (req : Request)
  : M (option Response * error) :=
  match upstream with
  | Some up =>
      call (EvRoundTrip req (Some (NoCloseConn up)))
           (fun t => w_exchange W t req (Some (NoCloseConn up)))
  | None =>
      idle ← query (fun t => w_idle W t req);
      match idle with
      | Some c =>
          call (EvRoundTrip req (Some c)) (fun t => w_exchange W t req (Some c))
      | None =>
          d ← Dial ctx false "tcp" (UHost (RURL req));
          match d with
          | inr err => mret (None, Some err)
          | inl conn =>
              _ ← emit EvRequestAware;
              call (EvRoundTrip req (Some conn))
                   (fun t => w_exchange W t req (Some conn))
          end
      end
  end.

(** The terminal step of [handle] for a request that is no CONNECT,
    proxy_http.go:137. *)
Definition nextHTTP (upstream : option Conn) : Next :=
  fun ctx modifiedReq =>
    _ ← emit EvRequestAware;
    '(resp, err) ← RoundTrip upstream ctx (prepareRequest (w_range W) modifiedReq);
    _ ← emit EvResponseAware;
    mret (resp, ctx, err).

(** [processRequests], proxy_http.go:150.  [fuel] bounds the number of
    requests served on the connection.  The call at proxy_http.go:194 also
    passes [req]; [proceedWithConnect] of proxy_connect.go:106 has no such
    parameter and reads no request. *)
Fixpoint processRequests (fuel : nat) (ctx : Context) (remoteAddr : string)
    (req : Request) (downstream : Conn) (downstreamBuffered : Reader)
    (next : Next) : M error :=
  match fuel with
  | O => out_of_fuel
  | S fuel' =>
      let req := if String.eqb (Scheme (RURL req)) ""
                 then with_URL (with_Scheme (origURLScheme ctx) (RURL req)) req
                 else req in
      let req := if String.eqb (UHost (RURL req)) ""
                 then with_URL (with_UHost (origURLHost ctx) (RURL req)) req
                 else req in
      let req := if String.eqb (Host req) ""
                 then with_Host (origHost ctx) req else req in
      '(resp, ctx, err) ← Filter_Apply proxy ctx req next;
      let resp := match err, resp with
                  | Some e, None => call_OnError proxy ctx (Some req) false e
                  | _, _ => resp
                  end in
      writeErr ← match resp with
                 | Some r => writeResponse (TeeToBuffer downstream) (Some req) r
                 | None => mret None
                 end;
      match writeErr with
      | Some _ =>
          if isUnexpected writeErr
          then mret (Some (errors_New
                             "Unable to write response to downstream: " writeErr))
          else mret err
      | None =>
          let upstream := upstreamConn ctx in
          let upstreamAddr := upstreamAddr ctx in
          let isConnect :=
            bool_decide (upstream ≠ None) || negb (String.eqb upstreamAddr "") in
          b ← query (w_buffered W);
          let downstream := if (0 <? length b)%nat
                            then Preconn downstream b else downstream in
          if isConnect
          then proceedWithConnect ctx upstreamAddr upstream downstream
          else if Close req then mret err
          else if bool_decide (err = None)
                  && match resp with Some r => RespClose r | None => false end
          then mret err
          else
            rd ← ReadRequest downstreamBuffered;
            match rd with
            | inr readErr =>
                if isUnexpected (Some readErr) then
                  _ ← match call_OnError proxy ctx None true readErr with
                      | Some errResp =>
                          _ ← writeResponse (ToConn downstream) None errResp;
                          mret tt
                      | None => mret tt
                      end;
                  mret (Some (errors_New
                                "Unable to read next request from downstream: "
                                (Some readErr)))
                else mret err
            | inl req =>
                let ctx := IncrementRequestNumber ctx in
                let req := with_RemoteAddr remoteAddr req in
                processRequests fuel' ctx remoteAddr req downstream
                                downstreamBuffered next
            end
      end
  end.

(** The body of [handle], proxy_http.go:65, before the deferred close of
    [downstream]. *)
Definition handleRequests (fuel : nat) (ctx : Context) (downstreamIn : Reader)
    (downstream : Conn) (upstream : option Conn) : M error :=
  let downstreamBuffered := downstreamIn in
  let fctx := WrapContext ctx downstream in
  rd ← ReadRequest downstreamBuffered;
  match rd with
  | inr err =>
      if isUnexpected (Some err) then
        _ ← match call_OnError proxy fctx None true err with
            | Some errResp =>
                _ ← writeResponse (ToConn downstream) None errResp;
                mret tt
            | None => mret tt
            end;
        mret (Some (errors_New "Error in initial ReadRequest: " (Some err)))
      else mret None
  | inl req =>
      let req := match w_remoteAddr W downstream with
                 | Some a => with_RemoteAddr a req
                 | None => req
                 end in
      let fctx := if String.eqb (origURLScheme ctx) ""
                  then WithOrig (Scheme (RURL req)) (UHost (RURL req))
                                (Host req) fctx
                  else fctx in
      if String.eqb (Method req) MethodConnect
      then processRequests fuel fctx (RemoteAddr req) req downstream
                           downstreamBuffered (nextCONNECT downstream)
      else
        r ← processRequests fuel fctx (RemoteAddr req) req downstream
                            downstreamBuffered (nextHTTP upstream);
        _ ← emit EvCloseIdleConnections;
        mret r
  end.

Definition handle_body (fuel : nat) (ctx : Context) (downstreamIn : Reader)
    (downstream : Conn) (upstream : option Conn) : M error :=
  r ← handleRequests fuel ctx downstreamIn downstream upstream;
  closeErr ← conn_Close downstream;
  _ ← match closeErr with
      | Some _ => log LTrace "Error closing downstream connection"
      | None => mret tt
      end;
  mret r.

End Reentry.

(** [handle]: each level of [fuel] allows one more re-entry from a tunnel
    and one more request per connection. *)
Fixpoint handle (fuel : nat) (ctx : Context) (downstreamIn : Reader)
    (downstream : Conn) (upstream : option Conn) : M error :=
  match fuel with
  | O => out_of_fuel
  | S fuel' => handle_body (handle fuel') fuel ctx downstreamIn downstream upstream
  end.

End WithProxy.
End Engine.

(** ** The entry points *)

Module Entry.
Import Headers Http Net Ctx Errors Effects Filters Options Engine.

(** Carriage return and line feed. *)
Definition CRLF : string :=
  String (ascii_of_nat 13) (String (ascii_of_nat 10) EmptyString).

(** [fmt.Sprintf(connectRequest, origin, origin)] with the constant
    [connectRequest] of proxy_connect.go:22. *)
Definition connectRequest (origin : string) : string :=
  "CONNECT " ++ origin ++ " HTTP/1.1" ++ CRLF
  ++ "Host: " ++ origin ++ CRLF ++ CRLF.

Section WithProxy.
Variable W : World.
Variable proxy : Opts.

(** [buffer.Len()] once [handle] is back: the number of bytes the response
    writes have put into the debug buffer. *)
Variable bufferLen : Trace -> nat.

(** [Handle], proxy_http.go:37.  The deferred [recover] acts on a panic
    only; none of the calls of this model panics, so what is left is the
    call of [handle] with no upstream and the debug log of a short
    buffer. *)
Definition Handle (fuel : nat) (ctx : Context) (downstreamIn : Reader)
    (downstream : Conn) : M error :=
  err ← handle W proxy fuel ctx downstreamIn downstream None;
  len ← query bufferLen;
  _ ← (if (0 <? len)%nat && (len <? 300)%nat
       then log LDebug "Response wrote on the wire"
       else mret tt);
  mret err.

(** [Connect], proxy_connect.go:101. *)
Definition Connect (fuel : nat) (ctx : Context) (in_ : Reader) (conn : Conn)
    (origin : string) : M error :=
  let pin := MultiReader (list_byte_of_string (connectRequest origin)) in_ in
  Handle fuel (WithNoRespondOkay (Some "true") ctx) pin conn.

End WithProxy.
End Entry.

(** ** Sample inputs and derived notions used by the properties *)

Module Samples.
Import GoStrings Errors Headers Http Net Ctx Effects Filters Options Engine.

(** A key is in canonical form, as every key of a parsed request is. *)
Definition canonical (k : string) : Prop := CanonicalMIMEHeaderKey k = k.

(** A request that carries the given headers. *)
Definition request_with (h : Header) : Request :=
  {| Method := "GET";
     RURL := {| Scheme := "http"; User := None; UHost := "h"; Path := "/x" |};
     Proto := "HTTP/1.1"; ProtoMajor := 1; ProtoMinor := 1; RHeader := h;
     Host := "h"; Close := false; RemoteAddr := "10.0.0.9:4000" |}.

(** Headers in which [Connection] names [X-Foo], and the visiting order that
    meets [X-Foo] first. *)
Definition xfoo_headers : Header :=
  <["Connection" := ["X-Foo"]]> (<["X-Foo" := ["drop"]]> ∅).
Definition xfoo_visit : list (string * list string) :=
  [("X-Foo", ["drop"]); ("Connection", ["X-Foo"])].

(** Headers in which [Connection] names [User-Agent], and the visiting order
    that meets [Connection] first. *)
Definition ua_headers : Header :=
  <["Connection" := ["User-Agent"]]> (<["User-Agent" := ["curl"]]> ∅).
Definition ua_visit : list (string * list string) :=
  [("Connection", ["User-Agent"]); ("User-Agent", ["curl"])].

(** Headers in which [Connection] names no header. *)
Definition ua_close_headers : Header :=
  <["Connection" := ["close"]]> (<["User-Agent" := ["curl"]]> ∅).

(** The header set [prepareRequest] reads the User-Agent from: the fresh
    copy of the incoming headers with [Host] set. *)
Definition forwardedHeaders (range : Header -> list (string * list string))
    (req : Request) : Header :=
  Set_ "Host" (Host req) (copyHeadersForForwarding ∅ (range (RHeader req))).

(** The User-Agent rule worded over the incoming request: the header is
    deleted when the incoming request's User-Agent is empty, and otherwise
    set to the incoming value. *)
Definition UserAgent_follows_incoming
    (range : Header -> list (string * list string)) (req : Request) : Prop :=
  RHeader (prepareRequest range req) !! "User-Agent"
  = if String.eqb (UserAgent req) "" then None else Some [UserAgent req].

(** Options with an idle timeout and nothing else set. *)
Definition example_opts : Opts :=
  {| Filter_ := None; OnError := None; IdleTimeout := 30;
     OKWaitsForUpstream := false; mitmIC := false;
     addIdleKeepAlive := fun h => h |}.

(** The request after the first lines of the loop of [processRequests] have
    filled in what the request lacks from the context. *)
Definition backfilled (ctx : Context) (req : Request) : Request :=
  let req := if String.eqb (Scheme (RURL req)) ""
             then with_URL (with_Scheme (origURLScheme ctx) (RURL req)) req
             else req in
  let req := if String.eqb (UHost (RURL req)) ""
             then with_URL (with_UHost (origURLHost ctx) (RURL req)) req
             else req in
  if String.eqb (Host req) "" then with_Host (origHost ctx) req else req.

(** What [writeResponse] puts on the wire for [&http.Response{StatusCode:
    code}] when [code] is at least 200. *)
Definition wireResponse (W : World) (proxy : Opts) (now : string)
    (req : option Request) (code : Z) : Response :=
  let resp := prepareResponse (w_range W) now
                (with_RespProto 1 1 (with_RespRequest req (emptyResponse code)))
                false in
  with_RespHeader (addIdleKeepAlive proxy (RespHeader resp)) resp.

(** A computation only adds to the trace. *)
Definition extends {A : Type} (m : M A) : Prop :=
  forall t, exists new, snd (m t) = (t ++ new)%list.

(** The upstream connection the tunnel works with, when it has one: the
    connection it was given, or the answer of the dial it makes itself. *)
Definition tunnel_upstream (W : World) (upstream : option Conn) (addr : string)
    (t : Trace) : Conn + GoError :=
  match upstream with
  | Some u => inl u
  | None => w_dial W t true "tcp" addr
  end.

(** The trace once the tunnel has its upstream connection. *)
Definition tunnel_start (upstream : option Conn) (addr : string) (t : Trace)
  : Trace :=
  match upstream with
  | Some _ => t
  | None => (t ++ [EvDial true "tcp" addr])%list
  end.

(** How a tunnel that has its upstream connection goes on, read off the
    answers of the outside: the calls it makes before it gets to the pipe,
    and then a return, the hand-over of decrypted HTTP to [handle], or the
    pipe with the bytes to replay, if any. *)
Inductive TunnelPath : Type :=
| ReturnsEarly (own : list Event) (result : error) (upstream : Conn)
| ReentersHandle (own : list Event) (consumed : list Byte.byte)
    (downstream upstream : Conn)
| Pipes (own : list Event) (rr : option (list Byte.byte))
    (downstream upstream : Conn).

Definition tunnel_path (W : World) (proxy : Opts) (start : Trace)
    (downstream upstream : Conn) : TunnelPath :=
  if mitmIC proxy then
    match w_mitm W start downstream upstream with
    | inr err =>
        ReturnsEarly [EvMITM downstream upstream; EvLog LError "Unable to MITM"]
          (Some (errors_New W "Unable to MITM connection: " (Some err)))
          upstream
    | inl (d, u, false) => Pipes [EvMITM downstream upstream] None d u
    | inl (d, u, true) =>
        match w_handshake W (start ++ [EvMITM downstream upstream])%list u with
        | Some e =>
            ReturnsEarly [EvMITM downstream upstream; EvHandshake u;
                          EvLog LError "HandshakeErr"] (Some e) u
        | None =>
            let own := [EvMITM downstream upstream; EvHandshake u;
                        EvPeekRequest d] in
            let peeked := w_peek W (start ++ [EvMITM downstream upstream;
                                              EvHandshake u])%list d in
            if (maxHTTPSize <? Z.of_nat (length (snd peeked)))%Z
            then ReturnsEarly own
                   (Some (errors_New W "Unable to re-read data: "
                            (Some ErrOverflowed))) u
            else match fst peeked with
                 | inl _ => ReentersHandle own (snd peeked) d u
                 | inr _ => Pipes own (Some (snd peeked)) d u
                 end
        end
    end
  else Pipes [] None downstream upstream.

(** The calls of the pipe between taking the two buffers and giving them
    back: the replay of the bytes a failed parse consumed, if there are any,
    and the two-way copy unless the replay failed. *)
Definition pipe_calls (W : World) (rr : option (list Byte.byte))
    (upstream downstream : Conn) (bufOut bufIn : Buffer) (ready : Trace)
  : list Event :=
  match rr with
  | Some data =>
      EvCopyBuffer upstream data bufOut
      :: match w_copy W ready upstream data with
         | Some _ => []
         | None => [EvBidiCopy upstream downstream bufOut bufIn]
         end
  | None => [EvBidiCopy upstream downstream bufOut bufIn]
  end.

Definition is_BidiCopy (e : Event) : bool :=
  match e with EvBidiCopy _ _ _ _ => true | _ => false end.

Definition is_buffer_event (e : Event) : bool :=
  match e with EvGet _ | EvPut _ => true | _ => false end.

Definition no_buffer_events (evs : list Event) : Prop :=
  forallb (fun e => negb (is_buffer_event e)) evs = true.

(** The buffers taken and given back, in the order of the calls. *)
Definition acquired (evs : list Event) : list Buffer :=
  omap (fun e => match e with EvGet b => Some b | _ => None end) evs.

Definition released (evs : list Event) : list Buffer :=
  omap (fun e => match e with EvPut b => Some b | _ => None end) evs.

Fixpoint remove_first (b : Buffer) (l : list Buffer) : option (list Buffer) :=
  match l with
  | [] => None
  | x :: l' => if Nat.eqb b x then Some l'
               else option_map (cons x) (remove_first b l')
  end.

(** Buffer accounting over a run: [Get] adds the buffer to those that are
    out, [Put] must give back a buffer that is out.  The result is what is
    still out at the end, or [None] when a [Put] had no [Get]. *)
Fixpoint accounting (out : list Buffer) (evs : list Event)
  : option (list Buffer) :=
  match evs with
  | [] => Some out
  | EvGet b :: evs' => accounting (b :: out) evs'
  | EvPut b :: evs' =>
      match remove_first b out with
      | Some out' => accounting out' evs'
      | None => None
      end
  | _ :: evs' => accounting out evs'
  end.

(** A computation only adds to the trace, and what it adds is even: no
    [Put] without a [Get] before it, no buffer left out. *)
Definition accounted {A : Type} (m : M A) : Prop :=
  forall t, exists new,
    snd (m t) = (t ++ new)%list /\ accounting [] new = Some [].

Definition is_LogError (e : Event) : bool :=
  match e with EvLog LError _ => true | _ => false end.

(** A CONNECT request as [http.ReadRequest] returns it. *)
Definition connect_request : Request :=
  {| Method := "CONNECT";
     RURL := {| Scheme := ""; User := None; UHost := "example:443"; Path := "" |};
     Proto := "HTTP/1.1"; ProtoMajor := 1; ProtoMinor := 1;
     RHeader := <["Host" := ["example:443"]]> ∅;
     Host := "example:443"; Close := false; RemoteAddr := "" |}.

Definition refused : GoError :=
  OtherError "dial tcp: connection refused".

(** An error value for [errors.New] to answer with in the samples. *)
Definition sample_errors_New (format : string) (cause : error) : GoError :=
  OtherError (format ++ match cause with
                        | Some e => Error e
                        | None => "<nil>"
                        end).

(** A small outside: the client sends one CONNECT and then closes, every
    write and close succeeds, the two-way copy ends when the client goes
    away; the answers to the dial, to MITM and to the parse of the decrypted
    stream are given. *)
Definition sample_world (dial : Conn + GoError) (mitming : bool)
    (peek : (Request + GoError) * list Byte.byte) : World :=
  {| w_range := map_to_list;
     w_now := fun _ => "Sunday, 01-Jan-23 00:00:00 GMT";
     w_dial := fun _ _ _ _ => dial;
     w_write := fun _ _ _ => None;
     w_readRequest := fun t _ => match t with
                                 | [] => inl connect_request
                                 | _ => inr EOF
                                 end;
     w_buffered := fun _ => [];
     w_remoteAddr := fun _ => Some "10.0.0.9:4000";
     w_mitm := fun _ d u => inl (d, u, mitming);
     w_handshake := fun _ _ => None;
     w_peek := fun _ _ => peek;
     w_get := fun t => length t;
     w_copy := fun _ _ _ => None;
     w_bidi := fun _ _ _ => (None, Some EOF);
     w_close := fun _ _ => None;
     w_idle := fun _ _ => None;
     w_exchange := fun _ _ _ => (Some (emptyResponse StatusOK), None);
     w_errors_New := sample_errors_New |}.

Definition client : Conn := RawConn 0.
Definition origin : Conn := RawConn 1.









Definition eager_proxy : Opts :=
  {| Filter_ := None; OnError := None; IdleTimeout := 0;
     OKWaitsForUpstream := false; mitmIC := false;
     addIdleKeepAlive := fun h => h |}.

Definition waiting_proxy : Opts :=
  {| Filter_ := None; OnError := None; IdleTimeout := 0;
     OKWaitsForUpstream := true; mitmIC := false;
     addIdleKeepAlive := fun h => h |}.

Definition mitm_proxy : Opts :=
  {| Filter_ := None; OnError := None; IdleTimeout := 0;
     OKWaitsForUpstream := false; mitmIC := true;
     addIdleKeepAlive := fun h => h |}.


(** The status codes of the responses written, in order. *)
Definition statuses_written (t : Trace) : list Z :=
  omap (fun e => match e with
                 | EvResponseWrite _ r => Some (StatusCode r)
                 | _ => None
                 end) t.


(** The calls of a run without the payloads: enough to read the order. *)
Inductive Step :=
| SRead | SWrite (status : Z) | SDial | SLog | SMITM | SShake | SPeek
| SGet (b : Buffer) | SPut (b : Buffer) | SReplay (n : nat) | SPipe
| SClose (c : Conn) | SOther.

Definition step_of (e : Event) : Step :=
  match e with
  | EvReadRequest _ => SRead
  | EvResponseWrite _ r => SWrite (StatusCode r)
  | EvDial _ _ _ => SDial
  | EvLog _ _ => SLog
  | EvMITM _ _ => SMITM
  | EvHandshake _ => SShake
  | EvPeekRequest _ => SPeek
  | EvGet b => SGet b
  | EvPut b => SPut b
  | EvCopyBuffer _ data _ => SReplay (length data)
  | EvBidiCopy _ _ _ _ => SPipe
  | EvClose c => SClose c
  | _ => SOther
  end.

End Samples.

(** ** Notions used by the further properties *)

Module Coverage.
Import GoStrings Errors Headers Http Net Ctx Effects Filters Options Engine
  Entry Samples.

(** The values listed under a key in a sequence of map entries. *)
Fixpoint entry_of (k : string) (src : list (string * list string))
  : option (list string) :=
  match src with
  | [] => None
  | (k', vv) :: src' => if String.eqb k k' then Some vv else entry_of k src'
  end.

(** Every key of the map is in canonical form. *)
Definition canonical_keys (h : Header) : Prop :=
  forall k vv, h !! k = Some vv -> canonical k.

(** What the copy keeps of one source entry when no Connection header is
    there: nothing of the fixed hop-by-hop names, nothing of an entry
    without values, the list of values otherwise. *)
Definition kept (k : string) (entry : option (list string))
  : option (list string) :=
  match entry with
  | Some (v :: vs) => if contains k skippedHopByHop then None else Some (v :: vs)
  | _ => None
  end.

(** A small header map with canonical keys and no Connection header. *)
Definition plain_headers : Header :=
  <["Accept" := ["text/html"; "text/plain"]]>
    (<["Keep-Alive" := ["timeout=5"]]> (<["X-Empty" := []]> ∅)).

(** A response of an HTTP/1.0 exchange with chunked transfer encoding. *)
Definition http10_response (code : Z) : Response :=
  {| StatusCode := code; RespProtoMajor := 1; RespProtoMinor := 0;
     RespHeader := <["Content-Type" := ["text/plain"]]> ∅;
     TransferEncoding := ["chunked"]; RespClose := false;
     RespRequest := None; Body := None |}.

(** A computation only adds to the trace, every call it adds satisfies [P],
    and a result it returns satisfies [Q]. *)
Definition emits {A : Type} (P : Event -> Prop) (Q : A -> Prop) (m : M A)
  : Prop :=
  forall t, exists new,
    snd (m t) = (t ++ new)%list
    /\ Forall P new
    /\ match fst (m t) with Some a => Q a | None => True end.

Definition anything {A : Type} : A -> Prop := fun _ => True.

(** The calls of [writeResponse]. *)
Definition write_call (e : Event) : Prop :=
  match e with
  | EvResponseWrite _ _ | EvBodyClose | EvLog _ _ => True
  | _ => False
  end.

(** The calls the request loop makes by itself between two requests. *)
Definition loop_call (e : Event) : Prop :=
  match e with
  | EvResponseWrite _ _ | EvBodyClose | EvLog _ _ | EvReadRequest _ => True
  | _ => False
  end.

(** A filter result that leaves the context as it was. *)
Definition same_context (ctx : Context) (r : FilterResult) : Prop :=
  snd (fst r) = ctx.

(** The context carries no upstream connection and no upstream address. *)
Definition no_upstream (ctx : Context) : Prop :=
  upstreamValue ctx = None /\ upstreamAddrValue ctx = None.

(** Every forwarded request names the given remote address. *)
Definition from_remote (a : string) (e : Event) : Prop :=
  match e with
  | EvRoundTrip r _ => RemoteAddr r = a
  | _ => True
  end.

(** No dial, and every exchange over the supplied connection, wrapped so
    that the transport cannot close it. *)
Definition over_supplied (up : Conn) (e : Event) : Prop :=
  match e with
  | EvDial _ _ _ => False
  | EvRoundTrip _ via => via = Some (NoCloseConn up)
  | _ => True
  end.

(** No call of the tunnel phase. *)
Definition no_tunnel_call (e : Event) : Prop :=
  match e with
  | EvDial true _ _ | EvMITM _ _ | EvHandshake _ | EvPeekRequest _
  | EvGet _ | EvPut _ | EvCopyBuffer _ _ _ | EvBidiCopy _ _ _ _ => False
  | _ => True
  end.

Definition not_ReadRequest (e : Event) : Prop :=
  match e with EvReadRequest _ => False | _ => True end.

(** The upstream connection [proceedWithConnect] holds when it returns: the
    one MITM handed back, if an interceptor is installed and did not fail,
    the one it started with otherwise. *)
Definition final_upstream (W : World) (proxy : Opts) (start : Trace)
    (downstream upstream : Conn) : Conn :=
  if mitmIC proxy
  then match w_mitm W start downstream upstream with
       | inl (_, upstreamMITM, _) => upstreamMITM
       | inr _ => upstream
       end
  else upstream.

Definition outcome_upstream (o : MitmOutcome) : Conn :=
  match o with
  | Returned _ u => u
  | FallThrough _ _ u => u
  end.

(** What follows the deferred close of a connection: nothing, or the log
    line of a failed close. *)
Definition close_tail (msg : string) (tail : list Event) : Prop :=
  tail = [] \/ tail = [EvLog LTrace msg].

(** A plain GET with the close flag set. *)
Definition closing_request : Request :=
  {| Method := "GET";
     RURL := {| Scheme := "http"; User := None; UHost := "h"; Path := "/x" |};
     Proto := "HTTP/1.1"; ProtoMajor := 1; ProtoMinor := 1; RHeader := ∅;
     Host := "h"; Close := true; RemoteAddr := "10.0.0.9:4000" |}.

(** A CONNECT with the close flag set, as an HTTP/1.0 client sends it. *)
Definition closing_connect : Request :=
  {| Method := "CONNECT";
     RURL := {| Scheme := ""; User := None; UHost := "example:443"; Path := "" |};
     Proto := "HTTP/1.0"; ProtoMajor := 1; ProtoMinor := 0;
     RHeader := <["Host" := ["example:443"]]> ∅;
     Host := "example:443"; Close := true; RemoteAddr := "10.0.0.9:4000" |}.

(** One byte more than the replay buffer holds. *)
Definition too_many_bytes : list Byte.byte :=
  repeat Byte.x00 (S (Z.to_nat maxHTTPSize)).

(** A stand-in for the re-entered [handle] that returns at once. *)
Definition returning (res : error)
  : Context -> Reader -> Conn -> option Conn -> M error :=
  fun _ _ _ _ => mret res.

(** The run of [m] from [t] begins with the calls [pre]. *)
Definition starts_with_calls {A : Type} (m : M A) (t : Trace)
    (pre : list Event) : Prop :=
  exists rest, snd (m t) = (t ++ pre ++ rest)%list.

End Coverage.

(** * Properties *)

Import GoStrings Errors Headers Http Net Ctx Effects Filters Options Engine
  Samples Entry Coverage.

(** ** The string tests *)

Lemma HasPrefix_spec s p : HasPrefix s p = true <-> starts_with s p.
Proof.
  revert s; induction p as [|a p IH]; intros s.
  - destruct s; (split; [intros _; eexists; reflexivity | reflexivity]).
  - destruct s as [|b s].
    + split; [discriminate | intros [r Hr]; discriminate].
    + change (HasPrefix (String b s) (String a p))
        with (if Ascii.eqb a b then HasPrefix s p else false).
      destruct (Ascii.eqb_spec a b) as [->|Hne].
      * split.
        -- intros H. apply IH in H as [r Hr]. exists r.
           cbn. now rewrite Hr.
        -- intros [r Hr]. apply IH. exists r.
           cbn in Hr. now inversion Hr.
      * split; [discriminate | intros [r Hr]; cbn in Hr].
        inversion Hr; congruence.
Qed.

Lemma HasSuffix_cons b s suf :
  HasSuffix (String b s) suf = String.eqb (String b s) suf || HasSuffix s suf.
Proof. reflexivity. Qed.

Lemma HasSuffix_spec s suf : HasSuffix s suf = true <-> ends_in s suf.
Proof.
  induction s as [|b s IH].
  - change (HasSuffix "" suf) with (String.eqb "" suf || false).
    rewrite orb_false_r. split.
    + intros H. apply String.eqb_eq in H. exists EmptyString. now subst.
    + intros [l Hl]. apply String.eqb_eq.
      destruct l; cbn in Hl; [assumption | discriminate].
  - rewrite HasSuffix_cons, orb_true_iff. split.
    + intros [H | H].
      * apply String.eqb_eq in H. exists EmptyString. now subst.
      * apply IH in H as [l Hl]. exists (String b l). cbn. now rewrite Hl.
    + intros [l Hl]. destruct l as [|c l]; cbn in Hl.
      * left. apply String.eqb_eq. assumption.
      * right. apply IH. exists l. now inversion Hl.
Qed.

Lemma Contains_cons b s sub :
  Contains (String b s) sub = HasPrefix (String b s) sub || Contains s sub.
Proof. reflexivity. Qed.

Lemma Contains_spec s sub : Contains s sub = true <-> has_substring s sub.
Proof.
  induction s as [|b s IH].
  - change (Contains "" sub) with (HasPrefix "" sub || false).
    rewrite orb_false_r. split.
    + intros H. apply HasPrefix_spec in H as [r Hr].
      exists EmptyString, r. assumption.
    + intros (l & r & Hlr). apply HasPrefix_spec.
      destruct l; cbn in Hlr; [|discriminate].
      exists r. assumption.
  - rewrite Contains_cons, orb_true_iff. split.
    + intros [H | H].
      * apply HasPrefix_spec in H as [r Hr]. exists EmptyString, r. assumption.
      * apply IH in H as (l & r & Hlr).
        exists (String b l), r. cbn. now rewrite Hlr.
    + intros (l & r & Hlr). destruct l as [|c l]; cbn in Hlr.
      * left. apply HasPrefix_spec. exists r. assumption.
      * right. apply IH. exists l, r. now inversion Hlr.
Qed.

(** ** The error classifier *)

Lemma negb_false_true b : negb b = false <-> b = true.
Proof. destruct b; cbn; split; intro H; try reflexivity; discriminate. Qed.

(** C4.  [isUnexpected err] is false exactly when [err] is nil, is [io.EOF],
    is a [net.Error] whose [Timeout()] is true, or has a message that ends in
    "EOF" or contains one of "i/o timeout", "use of closed network
    connection", "Use of idled network connection", "broken pipe",
    "connection reset by peer"; for every other error it is true. *)
Theorem isUnexpected_false_exactly (err : error) :
  (isUnexpected err = false <-> expected_condition err)
  /\ (isUnexpected err = true <-> ~ expected_condition err).
Proof.
  assert (Hiff : isUnexpected err = false <-> expected_condition err).
  { destruct err as [e|]; [|cbn; tauto].
    unfold isUnexpected, expected_condition.
    destruct e as [|tm msg|msg]; cbn [is_io_EOF is_net_timeout Error].
    - split; [intros _; now left | reflexivity].
    - destruct tm.
      + split; [intros _; right; left; now exists msg | reflexivity].
      + rewrite !andb_false_iff, !negb_false_true, HasSuffix_spec,
          !Contains_spec.
        split.
        * intros H. right. right. tauto.
        * intros [H | [[m H] | H]]; [discriminate | discriminate | tauto].
    - rewrite !andb_false_iff, !negb_false_true, HasSuffix_spec,
        !Contains_spec.
      split.
      + intros H. right. right. tauto.
      + intros [H | [[m H] | H]]; [discriminate | discriminate | tauto]. }
  split; [exact Hiff|].
  rewrite <- Hiff. destruct (isUnexpected err); split; intro H;
    try reflexivity; try discriminate; try congruence;
    exfalso; apply H; reflexivity.
Qed.

(** The classifier on the errors of the end-to-end scenarios. *)
Example isUnexpected_reset :
  isUnexpected (Some (OtherError "read tcp 10.0.0.1:80: connection reset by peer"))
  = false.
Proof. reflexivity. Qed.

Example isUnexpected_refused :
  isUnexpected (Some (OtherError "dial tcp 10.0.0.1:80: connection refused"))
  = true.
Proof. reflexivity. Qed.

Example isUnexpected_wrapped_EOF :
  isUnexpected (Some (OtherError "unexpected EOF")) = false.
Proof. reflexivity. Qed.

(** ** Header hygiene *)

Lemma contains_true_iff k s : contains k s = true <-> In k s.
Proof.
  induction s as [|h s IH]; cbn.
  - split; [discriminate | tauto].
  - destruct (String.eqb_spec k h) as [->|Hne].
    + split; [intros _; now left | reflexivity].
    + rewrite IH. split; [tauto | intros [H|H]; [congruence | assumption]].
Qed.

Lemma lookup_Add_ne key value (h : Header) j :
  CanonicalMIMEHeaderKey key ≠ j -> Add key value h !! j = h !! j.
Proof. intros Hne. unfold Add. now rewrite lookup_insert_ne. Qed.

Lemma lookup_Add_all_ne key vv (h : Header) j :
  CanonicalMIMEHeaderKey key ≠ j ->
  fold_left (fun d v => Add key v d) vv h !! j = h !! j.
Proof.
  intros Hne. revert h. induction vv as [|v vv IH]; intros h; cbn.
  - reflexivity.
  - rewrite IH. now apply lookup_Add_ne.
Qed.

(** With canonical source keys, nothing is ever copied under a name of the
    fixed hop-by-hop set, in whatever order the source is visited.  For TE
    this says little: a canonical key is never TE, and the header stored
    under Te is not covered. *)
Lemma copyHeaders_fixed_set (src : list (string * list string)) :
  forall (dst : Header) (extra : list string) (j : string),
    Forall (fun kvv => canonical (fst kvv)) src ->
    In j hopByHop ->
    fst (fold_left copyHeader src (dst, extra)) !! j = dst !! j.
Proof.
  induction src as [|[k vv] src IH]; intros dst extra j Hcan Hj.
  - reflexivity.
  - inversion Hcan as [|? ? Hk Hrest]; subst. cbn [fst] in Hk.
    cbn [fold_left]. unfold copyHeader at 2.
    destruct (String.eqb_spec k "Connection") as [->|Hconn].
    + now apply IH.
    + destruct (contains k skippedHopByHop) eqn:Hskip.
      * now apply IH.
      * destruct (contains k extra); cbn [negb].
        -- now apply IH.
        -- rewrite IH by assumption. apply lookup_Add_all_ne.
           rewrite Hk. intros ->. destruct Hj as [Hj|Hj]; [congruence|].
           apply contains_true_iff in Hj. congruence.
Qed.

Lemma copyHeadersForForwarding_drops_fixed_set src j :
  Forall (fun kvv => canonical (fst kvv)) src ->
  In j hopByHop ->
  copyHeadersForForwarding ∅ src !! j = None.
Proof.
  intros Hcan Hj. unfold copyHeadersForForwarding.
  now rewrite copyHeaders_fixed_set.
Qed.

(** What the filter does achieve: when [range] meets [Connection] first,
    no header that is one of the [Connection] values is copied. *)
Lemma copyHeaders_after_Connection (src : list (string * list string)) :
  forall (dst : Header) (vv : list string) (k : string),
    Forall (fun kvv => canonical (fst kvv) /\ fst kvv <> "Connection") src ->
    In k vv ->
    dst !! k = None ->
    fst (fold_left copyHeader src (dst, vv)) !! k = None.
Proof.
  induction src as [|[k' vv'] src IH]; intros dst vv k Hsrc Hk Hdst.
  - exact Hdst.
  - inversion Hsrc as [|? ? [Hcan Hne] Hrest]; subst. cbn [fst] in Hcan, Hne.
    cbn [fold_left]. unfold copyHeader at 2.
    destruct (String.eqb_spec k' "Connection") as [Heq|_]; [contradiction|].
    destruct (contains k' skippedHopByHop).
    + now apply IH.
    + destruct (contains k' vv) eqn:Hin; cbn [negb].
      * now apply IH.
      * apply IH; [assumption | assumption |].
        rewrite lookup_Add_all_ne; [assumption|].
        rewrite Hcan. intros ->.
        apply contains_true_iff in Hk. congruence.
Qed.

Lemma copyHeadersForForwarding_Connection_first vv rest k :
  Forall (fun kvv => canonical (fst kvv) /\ fst kvv <> "Connection") rest ->
  In k vv ->
  copyHeadersForForwarding ∅ (("Connection", vv) :: rest) !! k = None.
Proof.
  intros Hrest Hk. unfold copyHeadersForForwarding. cbn [fold_left].
  change (copyHeader (∅, []) ("Connection", vv)) with ((∅ : Header), vv).
  now apply copyHeaders_after_Connection.
Qed.

(** C1, at a failing input.  The request carries [Connection: X-Foo] and
    [X-Foo: drop].  When [range] visits [X-Foo] before [Connection], the
    list of extra hop-by-hop headers is still empty at [X-Foo], and the
    prepared request forwards the header that [Connection] names. *)
Theorem prepareRequest_forwards_header_named_in_Connection :
  range_of xfoo_headers xfoo_visit
  /\ contains "X-Foo" (default [] (xfoo_headers !! "Connection")) = true
  /\ RHeader (prepareRequest (fun _ => xfoo_visit) (request_with xfoo_headers))
       !! "X-Foo" = Some ["drop"]
  /\ copyHeadersForForwarding ∅ xfoo_visit !! "X-Foo" = Some ["drop"].
Proof.
  split; [|split; [|split]].
  - unfold range_of. vm_compute. apply perm_swap.
  - vm_compute. reflexivity.
  - vm_compute. reflexivity.
  - vm_compute. reflexivity.
Qed.

(** The other visiting order of the same map drops the header: the outcome
    depends on the order. *)
Example copyHeaders_Connection_first :
  copyHeadersForForwarding ∅ [("Connection", ["X-Foo"]); ("X-Foo", ["drop"])]
    !! "X-Foo" = None.
Proof. vm_compute. reflexivity. Qed.

(** The first end-to-end scenario: the header value [close, X-Foo] is one
    string, [contains] compares it whole with the key, and [X-Foo] is
    forwarded in both visiting orders. *)
Example copyHeaders_token_list_not_split :
  copyHeadersForForwarding ∅
    [("Connection", ["close, X-Foo"]); ("X-Foo", ["drop"]); ("X-Keep", ["keep"])]
    !! "X-Foo" = Some ["drop"]
  /\ copyHeadersForForwarding ∅
       [("X-Foo", ["drop"]); ("X-Keep", ["keep"]); ("Connection", ["close, X-Foo"])]
       !! "X-Foo" = Some ["drop"].
Proof. split; vm_compute; reflexivity. Qed.

Lemma lookup_Add_all_eq key vv (h : Header) :
  vv <> [] ->
  fold_left (fun d v => Add key v d) vv h !! CanonicalMIMEHeaderKey key
  = Some (default [] (h !! CanonicalMIMEHeaderKey key) ++ vv)%list.
Proof.
  revert h. induction vv as [|v vv IH]; intros h Hne; [congruence|].
  cbn [fold_left]. destruct vv as [|v' vv].
  - cbn [fold_left]. unfold Add. now rewrite lookup_insert_eq.
  - rewrite IH by discriminate. unfold Add at 1.
    rewrite lookup_insert_eq. cbn. now rewrite <- app_assoc.
Qed.

Lemma entry_of_None k src :
  ~ In k (map fst src) -> entry_of k src = None.
Proof.
  induction src as [|[k' vv] src IH]; cbn; [reflexivity|].
  intros Hnot. destruct (String.eqb_spec k k') as [->|Hne]; [tauto|].
  apply IH. tauto.
Qed.

Lemma entry_of_elem k vv src :
  List.NoDup (map fst src) -> In (k, vv) src -> entry_of k src = Some vv.
Proof.
  induction src as [|[k' vv'] src IH]; cbn; [tauto|].
  intros Hnd Hin. inversion Hnd as [|? ? Hk' Hnd']; subst.
  destruct Hin as [Heq|Hin].
  - inversion Heq; subst. now rewrite String.eqb_refl.
  - destruct (String.eqb_spec k k') as [->|Hne]; [|now apply IH].
    exfalso. apply Hk'. change k' with (fst (k', vv)). now apply in_map.
Qed.

Lemma range_of_entry (h : Header) visit k :
  range_of h visit -> entry_of k visit = h !! k.
Proof.
  unfold range_of. intros Hperm.
  assert (Hnd : List.NoDup (map fst visit)).
  { apply NoDup_ListNoDup. rewrite Hperm. apply NoDup_fst_map_to_list. }
  destruct (h !! k) as [vv|] eqn:Hk.
  - apply entry_of_elem; [assumption|].
    apply list_elem_of_In. rewrite Hperm. now apply elem_of_map_to_list.
  - apply entry_of_None. intros Hin. apply in_map_iff in Hin as [[k0 vv] [Heq Hin]].
    cbn in Heq. subst k0. apply list_elem_of_In in Hin. rewrite Hperm in Hin.
    apply elem_of_map_to_list in Hin. congruence.
Qed.

Lemma range_of_Forall (h : Header) visit (P : string -> Prop) :
  range_of h visit ->
  (forall k vv, h !! k = Some vv -> P k) ->
  Forall (fun kvv => P (fst kvv)) visit.
Proof.
  unfold range_of. intros Hperm HP. apply List.Forall_forall.
  intros [k vv] Hin. apply list_elem_of_In in Hin. rewrite Hperm in Hin.
  apply elem_of_map_to_list in Hin. cbn. eauto.
Qed.

(** The copy of a sequence of entries with distinct canonical keys, from any
    state of the loop.  A key other than Connection is either copied as if
    no Connection header were there, or it is left out as one of the extra
    hop-by-hop names the loop holds when it meets the key: the names it
    started with, or the values of the Connection entry. *)
Lemma copyHeaders_any_order (src : list (string * list string)) :
  forall (dst : Header) (extra : list string) (k : string),
    List.NoDup (map fst src) ->
    Forall (fun kvv => canonical (fst kvv)) src ->
    k <> "Connection" ->
    fst (fold_left copyHeader src (dst, extra)) !! k
    = match kept k (entry_of k src) with
      | Some vv => Some (default [] (dst !! k) ++ vv)%list
      | None => dst !! k
      end
    \/ (fst (fold_left copyHeader src (dst, extra)) !! k = dst !! k
        /\ (In k extra \/ In k (default [] (entry_of "Connection" src)))).
Proof.
  induction src as [|[k' vv'] src IH]; intros dst extra k Hnd Hsrc Hk.
  - left. reflexivity.
  - inversion Hnd as [|? ? Hk' Hnd']; subst.
    inversion Hsrc as [|? ? Hcan Hrest]; subst. cbn [fst] in Hcan.
    unfold canonical in Hcan.
    cbn [fold_left entry_of]. unfold copyHeader at 2 4.
    destruct (String.eqb_spec k' "Connection") as [->|Hconn].
    + rewrite String.eqb_refl.
      destruct (String.eqb_spec k "Connection") as [?|_]; [contradiction|].
      cbn [default].
      destruct (IH dst vv' k Hnd' Hrest Hk) as [H|[H [Hin|Hin]]].
      * now left.
      * right. split; [exact H|]. now right.
      * rewrite (entry_of_None "Connection" src Hk') in Hin. contradiction.
    + destruct (String.eqb_spec "Connection" k') as [?|_]; [congruence|].
      destruct (String.eqb_spec k k') as [<-|Hkk].
      * assert (Hstay : forall dst' extra',
                   fst (fold_left copyHeader src (dst', extra')) !! k
                   = dst' !! k).
        { intros dst' extra'.
          destruct (IH dst' extra' k Hnd' Hrest Hk) as [H|[H _]]; [|exact H].
          now rewrite (entry_of_None k src Hk') in H. }
        destruct (contains k skippedHopByHop) eqn:Hskip.
        { left. rewrite Hstay. unfold kept. rewrite Hskip. now destruct vv'. }
        destruct (contains k extra) eqn:Hextra; cbn [negb].
        { right. apply contains_true_iff in Hextra.
          split; [apply Hstay | now left]. }
        left. rewrite Hstay. unfold kept. rewrite Hskip.
        destruct vv' as [|v vs]; [reflexivity|].
        pose proof (lookup_Add_all_eq k (v :: vs) dst) as Hadd.
        rewrite Hcan in Hadd. apply Hadd. discriminate.
      * assert (Hsame : forall st,
                   fst st !! k = dst !! k ->
                   snd st = extra ->
                   fst (fold_left copyHeader src st) !! k
                   = match kept k (entry_of k src) with
                     | Some vv => Some (default [] (dst !! k) ++ vv)%list
                     | None => dst !! k
                     end
                   \/ (fst (fold_left copyHeader src st) !! k = dst !! k
                       /\ (In k extra
                           \/ In k (default [] (entry_of "Connection" src))))).
        { intros [dst' extra'] Hd He. cbn [fst snd] in Hd, He. subst extra'.
          destruct (IH dst' extra k Hnd' Hrest Hk) as [H|[H Hin]].
          - left. rewrite H, Hd. reflexivity.
          - right. split; [congruence | exact Hin]. }
        destruct (contains k' skippedHopByHop); [now apply Hsame|].
        destruct (contains k' extra); cbn [negb]; [now apply Hsame|].
        apply Hsame; [|reflexivity]. cbn [fst].
        apply lookup_Add_all_ne. rewrite Hcan. congruence.
Qed.

(** The same for a whole header map with canonical keys, in every order
    [range] may visit it. *)
Lemma copyHeadersForForwarding_any_order (h : Header)
    (visit : list (string * list string)) (k : string) :
  range_of h visit ->
  canonical_keys h ->
  k <> "Connection" ->
  copyHeadersForForwarding ∅ visit !! k = kept k (h !! k)
  \/ (copyHeadersForForwarding ∅ visit !! k = None
      /\ In k (default [] (h !! "Connection"))).
Proof.
  intros Hvisit Hcanon Hk.
  assert (Hnd : List.NoDup (map fst visit)).
  { apply NoDup_ListNoDup. unfold range_of in Hvisit. rewrite Hvisit.
    apply NoDup_fst_map_to_list. }
  assert (Hall : Forall (fun kvv => canonical (fst kvv)) visit).
  { apply (range_of_Forall h visit canonical Hvisit). exact Hcanon. }
  unfold copyHeadersForForwarding.
  destruct (copyHeaders_any_order visit ∅ [] k Hnd Hall Hk)
    as [H|[H [Hin|Hin]]].
  - left. rewrite H, (range_of_entry h visit k Hvisit), lookup_empty.
    now destruct (kept k (h !! k)).
  - contradiction.
  - right. rewrite H, lookup_empty.
    rewrite (range_of_entry h visit "Connection" Hvisit) in Hin. now split.
Qed.

Lemma copyHeadersForForwarding_not_named (h : Header)
    (visit : list (string * list string)) (k : string) :
  range_of h visit ->
  canonical_keys h ->
  k <> "Connection" ->
  ~ In k (default [] (h !! "Connection")) ->
  copyHeadersForForwarding ∅ visit !! k = kept k (h !! k).
Proof.
  intros Hvisit Hcanon Hk Hnot.
  destruct (copyHeadersForForwarding_any_order h visit k Hvisit Hcanon Hk)
    as [H|[_ Hin]]; [exact H | contradiction].
Qed.

(** ** User-Agent *)

Lemma canonical_User_Agent : CanonicalMIMEHeaderKey "User-Agent" = "User-Agent".
Proof. reflexivity. Qed.

Lemma prepareRequest_Header range req :
  RHeader (prepareRequest range req)
  = let h := forwardedHeaders range req in
    if String.eqb (Get "User-Agent" h) ""
    then Del "User-Agent" h
    else Set_ "User-Agent" (Get "User-Agent" h) h.
Proof.
  unfold prepareRequest, forwardedHeaders, UserAgent. cbv zeta.
  cbn [force_HTTP11_keepalive RHeader Host with_Header with_URL RURL].
  destruct (String.eqb (Scheme _) ""); cbn [with_URL RHeader Host];
    destruct (String.eqb (Get _ _) ""); reflexivity.
Qed.

Lemma Get_forwardedHeaders_UserAgent range req :
  Get "User-Agent" (forwardedHeaders range req)
  = match copyHeadersForForwarding ∅ (range (RHeader req)) !! "User-Agent" with
    | Some (v :: _) => v
    | _ => ""
    end.
Proof.
  unfold forwardedHeaders, Get, Set_. rewrite canonical_User_Agent.
  change (CanonicalMIMEHeaderKey "Host") with "Host".
  now rewrite lookup_insert_ne by discriminate.
Qed.

Lemma UserAgent_kept_value (h : Header) :
  match kept "User-Agent" (h !! "User-Agent") with
  | Some (v :: _) => v
  | _ => ""
  end = Get "User-Agent" h.
Proof.
  unfold Get. rewrite canonical_User_Agent.
  now destruct (h !! "User-Agent") as [[|v vs]|].
Qed.

(** C7, as amended.  In the request [prepareRequest] produces, the
    User-Agent header is absent or holds exactly one non-empty value: the
    value tested is the User-Agent of the freshly copied header set (what is
    left of the incoming headers after the hop-by-hop filter).  For incoming
    headers with canonical keys, in every order [range] may visit them: when
    the Connection header does not name User-Agent, the header is deleted if
    the incoming request's User-Agent is empty and is otherwise set to the
    incoming value; when Connection names User-Agent, either that still
    holds or the filter has dropped the header and it is absent. *)
Theorem prepareRequest_UserAgent_never_empty
    (range : Header -> list (string * list string)) (req : Request) :
  let ua := Get "User-Agent" (forwardedHeaders range req) in
  RHeader (prepareRequest range req) !! "User-Agent"
  = (if String.eqb ua "" then None else Some [ua])
  /\ match RHeader (prepareRequest range req) !! "User-Agent" with
     | None => True
     | Some vs => exists v, vs = [v] /\ String.eqb v "" = false
     end
  /\ (range_of (RHeader req) (range (RHeader req)) ->
      canonical_keys (RHeader req) ->
      (~ In "User-Agent" (default [] (RHeader req !! "Connection")) ->
       UserAgent_follows_incoming range req)
      /\ (UserAgent_follows_incoming range req
          \/ (In "User-Agent" (default [] (RHeader req !! "Connection"))
              /\ RHeader (prepareRequest range req) !! "User-Agent" = None))).
Proof.
  cbv zeta.
  assert (Hout : RHeader (prepareRequest range req) !! "User-Agent"
                 = (if String.eqb (Get "User-Agent" (forwardedHeaders range req)) ""
                    then None
                    else Some [Get "User-Agent" (forwardedHeaders range req)])).
  { rewrite prepareRequest_Header. cbv zeta.
    destruct (String.eqb (Get "User-Agent" (forwardedHeaders range req)) "").
    - unfold Del. now rewrite canonical_User_Agent, lookup_delete_eq.
    - unfold Set_ at 1. now rewrite canonical_User_Agent, lookup_insert_eq. }
  split; [exact Hout|]. split.
  { rewrite Hout.
    destruct (String.eqb (Get "User-Agent" (forwardedHeaders range req)) "")
      eqn:Hua; [exact I|].
    eexists. split; [reflexivity | exact Hua]. }
  intros Hvisit Hcanon.
  assert (Hcases : UserAgent_follows_incoming range req
                   \/ (In "User-Agent" (default [] (RHeader req !! "Connection"))
                       /\ RHeader (prepareRequest range req) !! "User-Agent"
                          = None)).
  { destruct (copyHeadersForForwarding_any_order (RHeader req)
                (range (RHeader req)) "User-Agent" Hvisit Hcanon
                ltac:(discriminate)) as [Hcopy|[Hcopy Hin]].
    - left. unfold UserAgent_follows_incoming, UserAgent.
      rewrite Hout, Get_forwardedHeaders_UserAgent, Hcopy.
      now rewrite UserAgent_kept_value.
    - right. split; [exact Hin|].
      now rewrite Hout, Get_forwardedHeaders_UserAgent, Hcopy. }
  split; [|exact Hcases].
  intros Hnot. destruct Hcases as [H|[Hin _]]; [exact H | contradiction].
Qed.

Lemma ua_close_headers_canonical : canonical_keys ua_close_headers.
Proof.
  intros k vv Hk. unfold ua_close_headers in Hk.
  destruct (decide (k = "Connection")) as [->|]; [reflexivity|].
  rewrite lookup_insert_ne in Hk by congruence.
  destruct (decide (k = "User-Agent")) as [->|]; [reflexivity|].
  rewrite lookup_insert_ne in Hk by congruence.
  rewrite lookup_empty in Hk. discriminate.
Qed.

(** The theorem at a request with [Connection: close] and
    [User-Agent: curl]: the prepared request carries [User-Agent: curl]. *)
Lemma prepareRequest_UserAgent_never_empty_witness :
  RHeader (prepareRequest map_to_list (request_with ua_close_headers))
    !! "User-Agent" = Some ["curl"].
Proof.
  destruct (prepareRequest_UserAgent_never_empty map_to_list
              (request_with ua_close_headers)) as (_ & _ & H).
  destruct (H ltac:(unfold range_of; reflexivity) ua_close_headers_canonical)
    as [Hkeep _].
  apply Hkeep. cbn. intros [H'|[]]. discriminate.
Defined.

(** C7, counterexample.  The incoming request has [User-Agent: curl] and
    [Connection: User-Agent]; [range] visits [Connection] first, the filter
    drops User-Agent as a hop-by-hop header, and the prepared request has no
    User-Agent although the incoming value is not empty. *)
Lemma UserAgent_dropped_when_named_in_Connection :
  range_of ua_headers ua_visit
  /\ UserAgent (request_with ua_headers) = "curl"
  /\ RHeader (prepareRequest (fun _ => ua_visit) (request_with ua_headers))
       !! "User-Agent" = None
  /\ ~ UserAgent_follows_incoming (fun _ => ua_visit) (request_with ua_headers).
Proof.
  split; [|split; [|split]].
  - unfold range_of. vm_compute. reflexivity.
  - vm_compute. reflexivity.
  - vm_compute. reflexivity.
  - unfold UserAgent_follows_incoming. vm_compute. discriminate.
Qed.

(** Why the keys have to be canonical: [Header.Get] does not see a header
    stored under [user-agent], the copy files it under [User-Agent], and the
    prepared request carries a User-Agent the incoming request did not
    show. *)
Example UserAgent_from_key_not_canonical :
  let hdr : Header := <["user-agent" := ["curl"]]> ∅ in
  UserAgent (request_with hdr) = ""
  /\ RHeader (prepareRequest map_to_list (request_with hdr)) !! "User-Agent"
     = Some ["curl"].
Proof. vm_compute. split; reflexivity. Qed.

(** Where no header is dropped by the filter the incoming value is kept. *)
Example UserAgent_kept :
  let hdr : Header := <["User-Agent" := ["curl"]]> ∅ in
  RHeader (prepareRequest map_to_list (request_with hdr)) !! "User-Agent"
  = Some ["curl"].
Proof. vm_compute. reflexivity. Qed.

Example UserAgent_empty_deleted :
  let hdr : Header := <["User-Agent" := [""]]> ∅ in
  RHeader (prepareRequest map_to_list (request_with hdr)) !! "User-Agent" = None.
Proof. vm_compute. reflexivity. Qed.

(** ** The filter chain *)

(** C8.  With a positive idle timeout [applyHTTPDefaults] puts
    [idleTimeoutFilter] in front of the chain; that filter only calls [next],
    and the joined chain equals the chain it wraps on every context, request
    and [next]. *)
Theorem idle_wrapper_is_identity (opts : Opts)
    (Hidle : (0 < IdleTimeout opts)%Z) :
  Filter_ (applyHTTPDefaults opts)
  = Some (Join idleTimeoutFilter (Filter_Apply opts))
  /\ (forall ctx req next, idleTimeoutFilter ctx req next = next ctx req)
  /\ (forall F ctx req next, Join idleTimeoutFilter F ctx req next = F ctx req next)
  /\ (forall ctx req next,
        Filter_Apply (applyHTTPDefaults opts) ctx req next
        = Filter_Apply opts ctx req next).
Proof.
  apply Z.ltb_lt in Hidle.
  assert (Hf : Filter_ (applyHTTPDefaults opts)
               = Some (Join idleTimeoutFilter (Filter_Apply opts))).
  { unfold applyHTTPDefaults, Filter_Apply. cbn [Filter_].
    rewrite Hidle. destruct (Filter_ opts); reflexivity. }
  split; [exact Hf|]. split; [reflexivity|]. split; [reflexivity|].
  intros ctx req next. unfold Filter_Apply at 1. rewrite Hf. reflexivity.
Qed.

Lemma idle_wrapper_is_identity_witness :
  (0 < IdleTimeout example_opts)%Z
  /\ forall ctx req next,
       Filter_Apply (applyHTTPDefaults example_opts) ctx req next
       = Filter_Apply example_opts ctx req next.
Proof.
  split; [reflexivity|].
  apply (idle_wrapper_is_identity example_opts). reflexivity.
Defined.

(** ** Writing a response *)

Lemma ProtoAtLeast_11 (r : Response) :
  ProtoAtLeast (with_RespProto 1 1 r) 1 1 = true.
Proof. reflexivity. Qed.

(** C10.  A response whose [ProtoMajor] is 0 is written as HTTP/1.1: it goes
    to the writer it was meant for, never to [Discard], whatever its status,
    and its transfer encoding is left as it is. *)
Theorem writeResponse_proto0_is_HTTP11 (W : World) (proxy : Opts)
    (downstream : Writer) (req : option Request) (resp : Response)
    (t : Trace) (Hzero : RespProtoMajor resp = 0%Z) :
  let wire := responseOnWire W proxy (w_now W t) downstream req resp in
  fst wire = downstream
  /\ RespProtoMajor (snd wire) = 1%Z
  /\ RespProtoMinor (snd wire) = 1%Z
  /\ TransferEncoding (snd wire) = TransferEncoding resp
  /\ exists rest,
       snd (writeResponse W proxy downstream req resp t)
       = (t ++ EvResponseWrite downstream (snd wire) :: rest)%list.
Proof.
  cbv zeta.
  assert (Hw : responseOnWire W proxy (w_now W t) downstream req resp
               = (downstream,
                  with_RespHeader
                    (addIdleKeepAlive proxy
                       (RespHeader
                          (prepareResponse (w_range W) (w_now W t)
                             (with_RespProto 1 1
                                (match RespRequest resp with
                                 | None => with_RespRequest req resp
                                 | Some _ => resp
                                 end)) false)))
                    (prepareResponse (w_range W) (w_now W t)
                       (with_RespProto 1 1
                          (match RespRequest resp with
                           | None => with_RespRequest req resp
                           | Some _ => resp
                           end)) false))).
  { unfold responseOnWire.
    destruct (RespRequest resp); cbn [with_RespRequest RespProtoMajor];
      rewrite Hzero; cbn [Z.eqb]; rewrite ProtoAtLeast_11; reflexivity. }
  rewrite Hw. cbn [fst snd].
  repeat split.
  - destruct (RespRequest resp); reflexivity.
  - unfold writeResponse, mbind, M_bind, bind, query, call, mret, M_ret, ret.
    rewrite Hw.
    match goal with
    | |- context [w_write W t downstream ?r] =>
        destruct (w_write W t downstream r), (Body r)
    end; cbn; unfold emit, log, emit, call; cbn;
      rewrite <- ?app_assoc; cbn; eexists; reflexivity.
Qed.

(** ** The CONNECT handler *)

Ltac run_monad :=
  unfold mbind, M_bind, bind, mret, M_ret, ret, query, log, emit, call in *.

Lemma bind_step {A B} (m : M A) (k : A -> M B) (t t' : Trace) (a : A) :
  m t = (Some a, t') -> (m ≫= k) t = k a t'.
Proof. intros H. unfold mbind, M_bind, bind. now rewrite H. Qed.

Lemma bind_stop {A B} (m : M A) (k : A -> M B) (t t' : Trace) :
  m t = (None, t') -> (m ≫= k) t = (None, t').
Proof. intros H. unfold mbind, M_bind, bind. now rewrite H. Qed.

(** *** Buffer accounting *)
(** *** Computations only add to the trace, and keep the buffers even *)

Lemma accounting_app out out' a b :
  accounting out a = Some out' ->
  accounting out (a ++ b) = accounting out' b.
Proof.
  revert out. induction a as [|e a IH]; intros out H; cbn in *.
  - now inversion H.
  - destruct e; try (now apply IH).
    destruct (remove_first b0 out); [now apply IH | discriminate].
Qed.

Lemma accounted_extends {A} (m : M A) : accounted m -> extends m.
Proof. intros H t. destruct (H t) as (new & Hn & _). now exists new. Qed.

Lemma accounted_ret {A} (a : A) : accounted (mret a).
Proof. intros t. exists []. cbn. now rewrite app_nil_r. Qed.

Lemma accounted_out_of_fuel {A} : accounted (@out_of_fuel A).
Proof. intros t. exists []. cbn. now rewrite app_nil_r. Qed.

Lemma accounted_call {A} (e : Event) (f : Trace -> A) :
  is_buffer_event e = false -> accounted (call e f).
Proof.
  intros He t. exists [e]. split; [reflexivity|].
  destruct e; try reflexivity; discriminate.
Qed.

Lemma accounted_query {A} (f : Trace -> A) : accounted (query f).
Proof. intros t. exists []. cbn. now rewrite app_nil_r. Qed.

Lemma accounted_bind {A B} (m : M A) (k : A -> M B) :
  accounted m -> (forall a, accounted (k a)) -> accounted (m ≫= k).
Proof.
  intros Hm Hk t. unfold mbind, M_bind, bind.
  destruct (Hm t) as (new1 & H1 & Hb1).
  destruct (m t) as [[a|] t1]; cbn in H1; subst.
  - destruct (Hk a (t ++ new1)%list) as (new2 & H2 & Hb2).
    exists (new1 ++ new2)%list. rewrite H2, app_assoc. split; [reflexivity|].
    now rewrite (accounting_app _ _ _ _ Hb1).
  - now exists new1.
Qed.

Ltac accounted_step :=
  match goal with
  | |- accounted (mret _) => apply accounted_ret
  | |- accounted out_of_fuel => apply accounted_out_of_fuel
  | |- accounted (call _ _) => apply accounted_call; reflexivity
  | |- accounted (emit _) => apply accounted_call; reflexivity
  | |- accounted (log _ _) => apply accounted_call; reflexivity
  | |- accounted (query _) => apply accounted_query
  | |- accounted (Dial _ _ _ _ _) => apply accounted_call; reflexivity
  | |- accounted (ReadRequest _ _) => apply accounted_call; reflexivity
  | |- accounted (conn_Close _ _) => apply accounted_call; reflexivity
  | |- accounted (MITM _ _ _) => apply accounted_call; reflexivity
  | |- accounted (_ ≫= _) => apply accounted_bind; [|intros]
  | |- accounted (match ?x with _ => _ end) => destruct x
  | |- accounted (let '(_, _) := ?x in _) => destruct x
  | H : _ |- _ => solve [apply H; auto]
  end.

Ltac accounted_auto := repeat accounted_step.

Lemma accounted_writeResponse (W : World) (proxy : Opts) out req resp :
  accounted (writeResponse W proxy out req resp).
Proof. unfold writeResponse. accounted_auto. Qed.

Lemma accounted_nextCONNECT (W : World) (proxy : Opts) downstream ctx req :
  accounted (nextCONNECT W proxy downstream ctx req).
Proof. unfold nextCONNECT, badGateway. accounted_auto. Qed.

Lemma accounted_nextHTTP (W : World) upstream ctx req :
  accounted (nextHTTP W upstream ctx req).
Proof. unfold nextHTTP, RoundTrip. accounted_auto. Qed.


Lemma pipeData_run (W : World) rr upstream downstream t :
  exists result b1 b2 mid,
    pipeData W rr upstream downstream t
    = (Some result, (t ++ EvGet b1 :: EvGet b2 :: mid ++ [EvPut b2; EvPut b1])%list)
    /\ no_buffer_events mid.
Proof.
  unfold pipeData, BufferSource_Get, BufferSource_Put. run_monad.
  cbv beta iota.
  set (b1 := w_get W t). set (b2 := w_get W (t ++ [EvGet b1])%list).
  rewrite <- !app_assoc. cbn [app].
  destruct rr as [data|].
  - destruct (w_copy W _ upstream data) as [copyErr|].
    + cbv beta iota. rewrite <- !app_assoc. cbn [app].
      eexists _, b1, b2, [_]. split; [reflexivity | reflexivity].
    + cbv beta iota. rewrite <- !app_assoc. cbn [app].
      match goal with
      | |- context [w_bidi W ?tr upstream downstream] =>
          destruct (w_bidi W tr upstream downstream) as [writeErr readErr]
      end.
      cbv beta iota.
      destruct (isUnexpected readErr); [|destruct (isUnexpected writeErr)];
        rewrite <- ?app_assoc; cbn [app];
        eexists _, b1, b2, [_; _]; (split; [reflexivity | reflexivity]).
  - cbv beta iota.
    match goal with
    | |- context [w_bidi W ?tr upstream downstream] =>
        destruct (w_bidi W tr upstream downstream) as [writeErr readErr]
    end.
    cbv beta iota.
    destruct (isUnexpected readErr); [|destruct (isUnexpected writeErr)];
      rewrite <- ?app_assoc; cbn [app];
      eexists _, b1, b2, [_]; (split; [reflexivity | reflexivity]).
Qed.

Lemma accounting_skip out evs rest :
  no_buffer_events evs ->
  accounting out (evs ++ rest) = accounting out rest.
Proof.
  induction evs as [|e evs IH]; cbn; [reflexivity|].
  intros H. unfold no_buffer_events in *. cbn in H.
  apply andb_true_iff in H as [He Hevs].
  destruct e; cbn in He; try discriminate; now apply IH.
Qed.

Lemma accounting_skip_all out evs :
  no_buffer_events evs ->
  accounting out evs = Some out.
Proof.
  induction evs as [|e evs IH]; cbn; [reflexivity|].
  intros H. unfold no_buffer_events in *. cbn in H.
  apply andb_true_iff in H as [He Hevs].
  destruct e; cbn in He; try discriminate; now apply IH.
Qed.

Lemma acquired_skip evs :
  no_buffer_events evs ->
  acquired evs = [] /\ released evs = [].
Proof.
  induction evs as [|e evs IH]; cbn; [tauto|].
  intros H. unfold no_buffer_events in *. cbn in H.
  apply andb_true_iff in H as [He Hevs].
  destruct e; cbn in He; try discriminate; now apply IH.
Qed.

Lemma acquired_app a b : acquired (a ++ b) = (acquired a ++ acquired b)%list.
Proof. unfold acquired. apply omap_app. Qed.

Lemma released_app a b : released (a ++ b) = (released a ++ released b)%list.
Proof. unfold released. apply omap_app. Qed.

(** The accounting of a stretch of calls that takes two buffers and gives
    them back at the end, last taken first. *)
Lemma two_buffers_balanced pre b1 b2 mid post :
  no_buffer_events pre ->
  no_buffer_events mid ->
  no_buffer_events post ->
  let own := (pre ++ EvGet b1 :: EvGet b2 :: mid ++ [EvPut b2; EvPut b1]
              ++ post)%list in
  accounting [] own = Some []
  /\ acquired own = [b1; b2]
  /\ released own = [b2; b1].
Proof.
  intros Hpre Hmid Hpost own. unfold own. split; [|split].
  - rewrite accounting_skip by assumption. cbn [accounting].
    rewrite accounting_skip by assumption. cbn [app accounting remove_first].
    rewrite Nat.eqb_refl. cbn [accounting remove_first].
    rewrite Nat.eqb_refl.
    now apply accounting_skip_all.
  - rewrite acquired_app, (proj1 (acquired_skip _ Hpre)). cbn.
    fold (acquired (mid ++ EvPut b2 :: EvPut b1 :: post)).
    rewrite acquired_app, (proj1 (acquired_skip _ Hmid)). cbn.
    fold (acquired post). now rewrite (proj1 (acquired_skip _ Hpost)).
  - rewrite released_app, (proj2 (acquired_skip _ Hpre)). cbn.
    fold (released (mid ++ EvPut b2 :: EvPut b1 :: post)).
    rewrite released_app, (proj2 (acquired_skip _ Hmid)). cbn.
    fold (released post). now rewrite (proj2 (acquired_skip _ Hpost)).
Qed.

Lemma accounted_pipeData (W : World) rr upstream downstream :
  accounted (pipeData W rr upstream downstream).
Proof.
  intros t.
  destruct (pipeData_run W rr upstream downstream t)
    as (result & b1 & b2 & mid & Hp & Hmid).
  rewrite Hp. cbn [snd]. eexists. split; [reflexivity|].
  assert (Hnil : no_buffer_events []) by reflexivity.
  destruct (two_buffers_balanced [] b1 b2 mid [] Hnil Hmid Hnil) as [Hacc _].
  cbn [app] in Hacc. exact Hacc.
Qed.

Section EngineAccounted.
Variable W : World.
Variable proxy : Opts.
Variable handle : Context -> Reader -> Conn -> option Conn -> M error.
Hypothesis reentry_accounted : forall c r d u, accounted (handle c r d u).
Hypothesis filter_forwards : forall c r n, Filter_Apply proxy c r n = n c r.

Lemma accounted_mitmStage ctx addr upstream downstream :
  accounted (mitmStage W proxy handle ctx addr upstream downstream).
Proof using reentry_accounted. unfold mitmStage. accounted_auto. Qed.

Lemma accounted_proceedWithConnect ctx addr upstream downstream :
  accounted (proceedWithConnect W proxy handle ctx addr upstream downstream).
Proof using reentry_accounted.
  unfold proceedWithConnect.
  pose proof accounted_mitmStage. pose proof accounted_pipeData.
  accounted_auto.
Qed.

Lemma accounted_processRequests fuel :
  forall ctx remoteAddr req downstream buffered next,
    (forall c r, accounted (next c r)) ->
    accounted (processRequests W proxy handle fuel ctx remoteAddr req
                 downstream buffered next).
Proof using reentry_accounted filter_forwards.
  induction fuel as [|fuel IH]; intros ctx remoteAddr req downstream buffered
    next Hnext; cbn [processRequests].
  - apply accounted_out_of_fuel.
  - pose proof accounted_proceedWithConnect. pose proof accounted_writeResponse.
    rewrite filter_forwards.
    accounted_auto.
Qed.

Lemma accounted_handle_body fuel ctx downstreamIn downstream upstream :
  accounted (handle_body W proxy handle fuel ctx downstreamIn downstream
               upstream).
Proof using reentry_accounted filter_forwards.
  unfold handle_body, handleRequests.
  pose proof accounted_processRequests. pose proof accounted_writeResponse.
  pose proof (accounted_nextCONNECT W proxy). pose proof (accounted_nextHTTP W).
  accounted_auto.
Qed.

End EngineAccounted.

(** The whole engine, tunnels within tunnels included: under a filter chain
    that forwards to [next], every run of [handle] only adds to the trace,
    and in what it adds every [Put] gives back a buffer that is out and no
    buffer is left out, also when the model stops the run for lack of
    fuel. *)
Theorem handle_accounted (W : World) (proxy : Opts)
    (Hfwd : forall c r n, Filter_Apply proxy c r n = n c r) (fuel : nat) :
  forall ctx downstreamIn downstream upstream,
    accounted (handle W proxy fuel ctx downstreamIn downstream upstream).
Proof.
  induction fuel as [|fuel IH]; intros; cbn [handle].
  - apply accounted_out_of_fuel.
  - now apply accounted_handle_body.
Qed.

Lemma extends_handle (W : World) (proxy : Opts)
    (Hfwd : forall c r n, Filter_Apply proxy c r n = n c r) (fuel : nat) :
  forall ctx downstreamIn downstream upstream,
    extends (handle W proxy fuel ctx downstreamIn downstream upstream).
Proof. intros. now apply accounted_extends, handle_accounted. Qed.

Lemma extends_processRequests (W : World) (proxy : Opts)
    (Hfwd : forall c r n, Filter_Apply proxy c r n = n c r)
    (depth fuel : nat) ctx remoteAddr req downstream buffered next :
  (forall c r, accounted (next c r)) ->
  extends (processRequests W proxy (handle W proxy depth) fuel ctx remoteAddr
             req downstream buffered next).
Proof.
  intros Hn. apply accounted_extends, accounted_processRequests; auto.
  now apply handle_accounted.
Qed.

Lemma extends_proceedWithConnect (W : World) (proxy : Opts)
    (Hfwd : forall c r n, Filter_Apply proxy c r n = n c r)
    (depth : nat) ctx addr upstream downstream :
  extends (proceedWithConnect W proxy (handle W proxy depth) ctx addr upstream
             downstream).
Proof.
  apply accounted_extends, accounted_proceedWithConnect.
  now apply handle_accounted.
Qed.

(** C9.  [nextCONNECT] dials only when [OKWaitsForUpstream] is set, and a
    failed dial always ends in [badGateway]: the branch that logs the error
    and returns it with no response is never taken. *)
Theorem nextCONNECT_raw_dial_error_unreachable (W : World) (proxy : Opts)
    (downstream : Conn) (ctx : Context) (req : Request) (t : Trace) :
  let run := nextCONNECT W proxy downstream ctx req t in
  let host := UHost (RURL req) in
  let dial := EvDial true "tcp" host in
  exists new,
    snd run = (t ++ new)%list
    /\ forallb (fun e => negb (is_LogError e)) new = true
    /\ match fst run with
       | Some (None, _, Some _) => False
       | _ => True
       end
    /\ if OKWaitsForUpstream proxy
       then head new = Some dial
            /\ match w_dial W t true "tcp" host with
               | inr err => run = badGateway ctx req err (t ++ [dial])%list
               | inl _ => new = [dial]
               end
       else new = [].
Proof.
  cbv zeta. unfold nextCONNECT, Dial, badGateway. run_monad.
  destruct (OKWaitsForUpstream proxy) eqn:Hwait; cbn [negb].
  - destruct (w_dial W t true "tcp" (UHost (RURL req))) as [up|err] eqn:Hd.
    + exists [EvDial true "tcp" (UHost (RURL req))].
      destruct (negb (bool_decide (noRespondOkay ctx ≠ None))); cbn;
        repeat split; reflexivity.
    + exists [EvDial true "tcp" (UHost (RURL req));
              EvLog LDebug "Responding BadGateway"].
      cbn. rewrite <- app_assoc. repeat split; reflexivity.
  - exists []. rewrite app_nil_r.
    destruct (negb (bool_decide (noRespondOkay ctx ≠ None))); cbn;
      repeat split; reflexivity.
Qed.

(** ** The request loop on a CONNECT *)


Lemma responseOnWire_emptyResponse (W : World) (proxy : Opts) now out req code :
  (200 <=? code)%Z = true ->
  responseOnWire W proxy now out req (emptyResponse code)
  = (out, wireResponse W proxy now req code).
Proof.
  intros Hcode. unfold responseOnWire, wireResponse.
  cbn [emptyResponse RespRequest with_RespRequest RespProtoMajor Z.eqb].
  rewrite ProtoAtLeast_11. reflexivity.
Qed.

Lemma writeResponse_emptyResponse (W : World) (proxy : Opts) out req code t :
  (200 <=? code)%Z = true ->
  writeResponse W proxy out req (emptyResponse code) t
  = (Some (w_write W t out (wireResponse W proxy (w_now W t) req code)),
     (t ++ [EvResponseWrite out (wireResponse W proxy (w_now W t) req code);
            EvLog LDebug "Wrote response"])%list).
Proof.
  intros Hcode. unfold writeResponse. run_monad.
  rewrite responseOnWire_emptyResponse by assumption.
  destruct (w_write W t out _); cbn; rewrite <- app_assoc; reflexivity.
Qed.


(** The tunnel phase without an upstream connection starts with the dial. *)
Lemma tunnel_dials_first (W : World) (proxy : Opts)
    (Hfwd : forall c r n, Filter_Apply proxy c r n = n c r)
    (depth : nat) ctx addr downstream t :
  exists rest,
    snd (proceedWithConnect W proxy (handle W proxy depth) ctx addr None
           downstream t)
    = (t ++ EvDial true "tcp" addr :: rest)%list.
Proof.
  destruct (extends_proceedWithConnect W proxy Hfwd depth ctx addr None
              downstream t) as [new Hnew].
  rewrite Hnew. revert Hnew.
  unfold proceedWithConnect, Dial.
  unfold mbind at 1, M_bind at 1, bind at 1, call at 1. cbv beta.
  destruct (w_dial W t true "tcp" addr) as [u|err].
  - match goal with
    | |- snd (?k (t ++ [?e])%list) = _ -> _ =>
        destruct (accounted_extends k) with (t := (t ++ [e])%list)
          as [new' Hnew']
    end.
    { pose proof (handle_accounted W proxy Hfwd depth) as Hh.
      pose proof (accounted_mitmStage W proxy _ Hh).
      pose proof (accounted_pipeData W).
      accounted_auto. }
    rewrite Hnew', <- app_assoc. intros H. apply app_inv_head in H.
    subst new. now exists new'.
  - cbn. intros H. apply app_inv_head in H. subst new. now exists [].
Qed.



(** *** The first request of a connection *)

Lemma handle_body_returns (W : World) (proxy : Opts) handle fuel ctx
    downstreamIn downstream upstream t (r : error) (t' : Trace) :
  handleRequests W proxy handle fuel ctx downstreamIn downstream upstream t
  = (Some r, t') ->
  exists tail,
    handle_body W proxy handle fuel ctx downstreamIn downstream upstream t
    = (Some r, (t' ++ EvClose downstream :: tail)%list)
    /\ close_tail "Error closing downstream connection" tail.
Proof.
  intros Hreq. unfold handle_body. erewrite bind_step by exact Hreq.
  unfold conn_Close. run_monad. cbv beta.
  destruct (w_close W t' downstream); cbn; rewrite <- ?app_assoc; cbn [app];
    eexists; (split; [reflexivity|]); first [now left | now right].
Qed.









(** ** The tunnel *)

Lemma Rereader_fits (consumed : list Byte.byte) :
  (Z.of_nat (length consumed) <= maxHTTPSize)%Z ->
  Rereader consumed = inl consumed.
Proof.
  intros Hfit. unfold Rereader.
  destruct (Z.ltb_spec maxHTTPSize (Z.of_nat (length consumed)));
    [lia | reflexivity].
Qed.

Lemma proceedWithConnect_start (W : World) (proxy : Opts) handle ctx addr
    upstream downstream t u0 :
  tunnel_upstream W upstream addr t = inl u0 ->
  proceedWithConnect W proxy handle ctx addr upstream downstream t
  = ((o ← mitmStage W proxy handle ctx addr u0 downstream;
      match o with
      | Returned result upstream => mret (result, upstream)
      | FallThrough rr downstream upstream =>
          result ← pipeData W rr upstream downstream;
          mret (result, upstream)
      end) ≫= fun '(result, upstream) =>
        closeErr ← conn_Close W upstream;
        _ ← match closeErr with
            | Some _ => log LTrace "Error closing upstream connection"
            | None => mret tt
            end;
        mret result) (tunnel_start upstream addr t).
Proof.
  intros Hup. unfold proceedWithConnect.
  destruct upstream as [u|]; cbn in Hup.
  - inversion Hup; subst. reflexivity.
  - unfold Dial. unfold mbind at 1, M_bind at 1, bind at 1, call at 1.
    rewrite Hup. reflexivity.
Qed.

(** C5.  In a tunnel under MITM where reading a request from the decrypted
    downstream fails and the bytes read fit the replay buffer, the tunnel
    takes its two buffers and copies exactly the bytes the parse attempt
    consumed to the upstream connection.  The two-way copy comes right after
    a successful replay; when the replay fails there is no two-way copy. *)
Theorem mitm_parse_failure_replays_before_piping (W : World) (proxy : Opts)
    (handle : Context -> Reader -> Conn -> option Conn -> M error)
    (ctx : Context) (addr : string) (upstream : option Conn)
    (downstream : Conn) (t : Trace) (u0 d' u' : Conn) (peekErr : GoError)
    (consumed : list Byte.byte)
    (Hinstalled : mitmIC proxy = true)
    (Hup : tunnel_upstream W upstream addr t = inl u0)
    (Hmitm : w_mitm W (tunnel_start upstream addr t) downstream u0
             = inl (d', u', true))
    (Hshake : w_handshake W
                (tunnel_start upstream addr t ++ [EvMITM downstream u0])%list u'
              = None)
    (Hpeek : w_peek W
               (tunnel_start upstream addr t
                ++ [EvMITM downstream u0; EvHandshake u'])%list d'
             = (inr peekErr, consumed))
    (Hfit : (Z.of_nat (length consumed) <= maxHTTPSize)%Z) :
  let peeked := (tunnel_start upstream addr t
                 ++ [EvMITM downstream u0; EvHandshake u';
                     EvPeekRequest d'])%list in
  let bufOut := w_get W peeked in
  let bufIn := w_get W (peeked ++ [EvGet bufOut])%list in
  let ready := (peeked ++ [EvGet bufOut; EvGet bufIn])%list in
  let replay := EvCopyBuffer u' consumed bufOut in
  exists rest,
    snd (proceedWithConnect W proxy handle ctx addr upstream downstream t)
    = (ready ++ replay :: rest)%list
    /\ match w_copy W ready u' consumed with
       | None =>
           exists rest',
             rest = EvBidiCopy u' d' bufOut bufIn
                    :: EvPut bufIn :: EvPut bufOut :: EvClose u' :: rest'
       | Some _ =>
           forallb (fun e => negb (is_BidiCopy e)) rest = true
           /\ exists rest',
                rest = EvPut bufIn :: EvPut bufOut :: EvClose u' :: rest'
       end.
Proof.
  cbv zeta. rewrite (proceedWithConnect_start _ _ _ _ _ _ _ _ _ Hup).
  set (t0 := tunnel_start upstream addr t) in *.
  unfold mitmStage, MITM, pipeData, conn_Close, BufferSource_Get,
    BufferSource_Put.
  rewrite Hinstalled. run_monad. cbv beta iota.
  rewrite Hmitm. cbv beta iota zeta. rewrite Hshake. cbv beta iota.
  rewrite <- !app_assoc. cbn [app]. rewrite Hpeek. cbv beta iota.
  rewrite (Rereader_fits _ Hfit). cbv beta iota.
  rewrite <- !app_assoc. cbn [app].
  set (bufOut := w_get W (t0 ++ [EvMITM downstream u0; EvHandshake u';
                                 EvPeekRequest d'])%list).
  set (bufIn := w_get W (t0 ++ [EvMITM downstream u0; EvHandshake u';
                                EvPeekRequest d'; EvGet bufOut])%list).
  destruct (w_copy W _ u' consumed) as [copyErr|] eqn:Hcopy.
  - cbv beta iota. rewrite <- !app_assoc. cbn [app].
    match goal with
    | |- context [w_close W ?tr u'] => destruct (w_close W tr u')
    end; cbn; rewrite <- ?app_assoc; cbn [app];
      eexists; (split; [rewrite <- ?app_assoc; cbn [app]; reflexivity|]);
      (split; [reflexivity|]); eexists; reflexivity.
  - cbv beta iota. rewrite <- !app_assoc. cbn [app].
    match goal with
    | |- context [w_bidi W ?tr u' d'] =>
        destruct (w_bidi W tr u' d') as [writeErr readErr]
    end.
    cbv beta iota.
    destruct (isUnexpected readErr); [|destruct (isUnexpected writeErr)];
      cbv beta iota; rewrite <- ?app_assoc; cbn [app];
      match goal with
      | |- context [w_close W ?tr u'] => destruct (w_close W tr u')
      end; cbn; rewrite <- ?app_assoc; cbn [app];
      eexists; (split; [rewrite <- ?app_assoc; cbn [app]; reflexivity|]);
      eexists; reflexivity.
Qed.

Lemma close_upstream_run (W : World) (result : error) (u : Conn) (t : Trace) :
  exists tail,
    (closeErr ← conn_Close W u;
     _ ← match closeErr with
         | Some _ => log LTrace "Error closing upstream connection"
         | None => mret tt
         end;
     mret result) t = (Some result, (t ++ EvClose u :: tail)%list)
    /\ close_tail "Error closing upstream connection" tail.
Proof.
  unfold conn_Close. run_monad. cbv beta.
  destruct (w_close W t u); cbn; rewrite <- ?app_assoc; cbn [app];
    eexists; (split; [reflexivity|]); [now right | now left].
Qed.

Lemma pipeData_trace (W : World) rr upstream downstream t :
  let bufOut := w_get W t in
  let bufIn := w_get W (t ++ [EvGet bufOut])%list in
  let ready := (t ++ [EvGet bufOut; EvGet bufIn])%list in
  exists result,
    pipeData W rr upstream downstream t
    = (Some result,
       (ready ++ pipe_calls W rr upstream downstream bufOut bufIn ready
        ++ [EvPut bufIn; EvPut bufOut])%list).
Proof.
  cbv zeta. unfold pipeData, pipe_calls, BufferSource_Get, BufferSource_Put.
  run_monad. cbv beta iota. rewrite <- !app_assoc. cbn [app].
  destruct rr as [data|].
  - destruct (w_copy W _ upstream data) as [copyErr|].
    + cbv beta iota. rewrite <- ?app_assoc. cbn [app]. eexists. reflexivity.
    + cbv beta iota. rewrite <- ?app_assoc. cbn [app].
      match goal with
      | |- context [w_bidi W ?tr upstream downstream] =>
          destruct (w_bidi W tr upstream downstream) as [writeErr readErr]
      end.
      cbv beta iota.
      destruct (isUnexpected readErr); [|destruct (isUnexpected writeErr)];
        rewrite <- ?app_assoc; cbn [app]; eexists; reflexivity.
  - cbv beta iota.
    match goal with
    | |- context [w_bidi W ?tr upstream downstream] =>
        destruct (w_bidi W tr upstream downstream) as [writeErr readErr]
    end.
    cbv beta iota.
    destruct (isUnexpected readErr); [|destruct (isUnexpected writeErr)];
      rewrite <- ?app_assoc; cbn [app]; eexists; reflexivity.
Qed.

Lemma pipe_calls_no_buffer_events W rr upstream downstream bufOut bufIn ready :
  no_buffer_events
    (pipe_calls W rr upstream downstream bufOut bufIn ready).
Proof.
  unfold pipe_calls. destruct rr as [data|]; [|reflexivity].
  now destruct (w_copy W ready upstream data).
Qed.

Lemma close_tail_no_buffer_events msg (u : Conn) tail :
  close_tail msg tail -> no_buffer_events (EvClose u :: tail).
Proof. intros [->| ->]; reflexivity. Qed.

(** What a tunnel that falls through to the pipe does from there on. *)
Lemma pipe_and_close (W : World) rr up d t :
  let bufOut := w_get W t in
  let bufIn := w_get W (t ++ [EvGet bufOut])%list in
  let ready := (t ++ [EvGet bufOut; EvGet bufIn])%list in
  exists result tail,
    ((result ← pipeData W rr up d; mret (result, up)) ≫= fun '(result, upstream) =>
       closeErr ← conn_Close W upstream;
       _ ← match closeErr with
           | Some _ => log LTrace "Error closing upstream connection"
           | None => mret tt
           end;
       mret result) t
    = (Some result,
       (ready ++ pipe_calls W rr up d bufOut bufIn ready
        ++ [EvPut bufIn; EvPut bufOut; EvClose up] ++ tail)%list)
    /\ close_tail "Error closing upstream connection" tail.
Proof.
  cbv zeta. destruct (pipeData_trace W rr up d t) as [result Hp].
  cbv zeta in Hp.
  erewrite bind_step by (erewrite bind_step by exact Hp; reflexivity).
  cbv beta iota.
  match goal with
  | |- context [(_ ≫= _) ?tr] =>
      destruct (close_upstream_run W result up tr) as (tail & Hc & Htail)
  end.
  exists result, tail. split; [|exact Htail].
  rewrite Hc. rewrite <- !app_assoc. cbn [app]. reflexivity.
Qed.

(** What a tunnel that returns before the pipe does from there on. *)
Lemma return_and_close (W : World) (result : error) up t :
  exists tail,
    (mret (result, up) ≫= fun '(result, upstream) =>
       closeErr ← conn_Close W upstream;
       _ ← match closeErr with
           | Some _ => log LTrace "Error closing upstream connection"
           | None => mret tt
           end;
       mret result) t
    = (Some result, (t ++ EvClose up :: tail)%list)
    /\ close_tail "Error closing upstream connection" tail.
Proof.
  erewrite bind_step by reflexivity. cbv beta iota.
  apply close_upstream_run.
Qed.

(** C6.  Buffer accounting of [proceedWithConnect], exit path by exit path.
    A failed dial returns at once.  With an upstream connection, the answers
    of the outside decide the path.  A return before the pipe (MITM failed,
    the handshake failed, the first request overflowed the replay buffer)
    and the hand-over of decrypted HTTP to [handle] take no buffer:
    [proceedWithConnect] makes no [Get] and no [Put] on them.  Every path
    into the pipe takes two buffers, makes the replay and the two-way copy
    (no two-way copy after a failed replay), and gives both buffers back,
    last taken first, before the upstream connection is closed: each [Get]
    is matched by exactly one [Put] of the same buffer. *)
Theorem proceedWithConnect_buffer_accounting (W : World) (proxy : Opts)
    (handle : Context -> Reader -> Conn -> option Conn -> M error)
    (ctx : Context) (addr : string) (upstream : option Conn)
    (downstream : Conn) (t : Trace) :
  let run := proceedWithConnect W proxy handle ctx addr upstream downstream t in
  let start := tunnel_start upstream addr t in
  match tunnel_upstream W upstream addr t with
  | inr dialErr => run = (Some (Some dialErr), start)
  | inl u0 =>
      match tunnel_path W proxy start downstream u0 with
      | ReturnsEarly own result up =>
          exists tail,
            run = (Some result, (start ++ own ++ EvClose up :: tail)%list)
            /\ close_tail "Error closing upstream connection" tail
            /\ no_buffer_events (own ++ EvClose up :: tail)
      | ReentersHandle own consumed d up =>
          no_buffer_events own
          /\ match handle (WithUpstreamAddr None (WithUpstream None ctx))
                     (MultiReader consumed (ConnReader d)) d (Some up)
                     (start ++ own)%list with
             | (Some res, t') =>
                 exists tail,
                   run = (Some res, (t' ++ EvClose up :: tail)%list)
                   /\ close_tail "Error closing upstream connection" tail
             | (None, t') => run = (None, t')
             end
      | Pipes own rr d up =>
          let bufOut := w_get W (start ++ own)%list in
          let bufIn := w_get W ((start ++ own) ++ [EvGet bufOut])%list in
          let ready := ((start ++ own) ++ [EvGet bufOut; EvGet bufIn])%list in
          let mid := pipe_calls W rr up d bufOut bufIn ready in
          exists result tail,
            let new := (own ++ EvGet bufOut :: EvGet bufIn :: mid
                        ++ [EvPut bufIn; EvPut bufOut]
                        ++ EvClose up :: tail)%list in
            run = (Some result, (start ++ new)%list)
            /\ close_tail "Error closing upstream connection" tail
            /\ no_buffer_events own /\ no_buffer_events mid
            /\ acquired new = [bufOut; bufIn]
            /\ released new = [bufIn; bufOut]
            /\ accounting [] new = Some []
      end
  end.
Proof.
  cbv zeta.
  destruct (tunnel_upstream W upstream addr t) as [u0|dialErr] eqn:Hup.
  2:{ destruct upstream as [u|]; [discriminate|]. cbn in Hup.
      unfold proceedWithConnect, Dial. run_monad. cbv beta. rewrite Hup.
      reflexivity. }
  rewrite (proceedWithConnect_start _ _ _ _ _ _ _ _ _ Hup).
  set (start := tunnel_start upstream addr t).
  assert (Hpipes : forall own rr d up,
             mitmStage W proxy handle ctx addr u0 downstream start
             = (Some (FallThrough rr d up), (start ++ own)%list) ->
             no_buffer_events own ->
             let bufOut := w_get W (start ++ own)%list in
             let bufIn := w_get W ((start ++ own) ++ [EvGet bufOut])%list in
             let ready := ((start ++ own) ++ [EvGet bufOut; EvGet bufIn])%list in
             let mid := pipe_calls W rr up d bufOut bufIn ready in
             exists result tail,
               let new := (own ++ EvGet bufOut :: EvGet bufIn :: mid
                           ++ [EvPut bufIn; EvPut bufOut]
                           ++ EvClose up :: tail)%list in
               ((o ← mitmStage W proxy handle ctx addr u0 downstream;
                 match o with
                 | Returned result upstream => mret (result, upstream)
                 | FallThrough rr downstream upstream =>
                     result ← pipeData W rr upstream downstream;
                     mret (result, upstream)
                 end) ≫= fun '(result, upstream) =>
                  closeErr ← conn_Close W upstream;
                  _ ← match closeErr with
                      | Some _ => log LTrace "Error closing upstream connection"
                      | None => mret tt
                      end;
                  mret result) start
               = (Some result, (start ++ new)%list)
               /\ close_tail "Error closing upstream connection" tail
               /\ no_buffer_events own /\ no_buffer_events mid
               /\ acquired new = [bufOut; bufIn]
               /\ released new = [bufIn; bufOut]
               /\ accounting [] new = Some []).
  { intros own rr d up Hm Hown. cbv zeta.
    destruct (pipe_and_close W rr up d (start ++ own)%list)
      as (result & tail & Hrun & Htail).
    cbv zeta in Hrun.
    set (bufOut := w_get W (start ++ own)%list) in *.
    set (bufIn := w_get W ((start ++ own) ++ [EvGet bufOut])%list) in *.
    set (ready := ((start ++ own) ++ [EvGet bufOut; EvGet bufIn])%list) in *.
    pose proof (pipe_calls_no_buffer_events W rr up d bufOut bufIn ready)
      as Hmid.
    set (mid := pipe_calls W rr up d bufOut bufIn ready) in *.
    exists result, tail.
    split.
    { unfold mbind at 1, M_bind at 1, bind at 1.
      unfold mbind at 1, M_bind at 1, bind at 1. rewrite Hm.
      revert Hrun.
      unfold mbind at 1, M_bind at 1, bind at 1. intros Hrun.
      rewrite Hrun. unfold ready. rewrite <- !app_assoc. reflexivity. }
    split; [exact Htail|]. split; [exact Hown|]. split; [exact Hmid|].
    pose proof (two_buffers_balanced own bufOut bufIn mid (EvClose up :: tail)
                  Hown Hmid (close_tail_no_buffer_events _ up tail Htail))
      as (Hacc & Hget & Hput).
    now rewrite Hacc, Hget, Hput. }
  unfold tunnel_path.
  destruct (mitmIC proxy) eqn:Hic.
  2:{ apply (Hpipes [] None downstream u0); [|reflexivity].
      rewrite app_nil_r. unfold mitmStage. now rewrite Hic. }
  destruct (w_mitm W start downstream u0) as [[[d' u'] mitming]|err] eqn:Hmitm.
  2:{ destruct (return_and_close W
                  (Some (errors_New W "Unable to MITM connection: " (Some err)))
                  u0 (start ++ [EvMITM downstream u0;
                                EvLog LError "Unable to MITM"])%list)
        as (tail & Hrun & Htail).
      exists tail. split; [|split; [exact Htail|]].
      - unfold mitmStage, MITM. rewrite Hic.
        revert Hrun. run_monad. cbv beta iota. rewrite Hmitm.
        cbv beta iota. rewrite <- !app_assoc. cbn [app]. now intros ->.
      - destruct Htail as [->| ->]; reflexivity. }
  destruct mitming.
  2:{ apply Hpipes; [|reflexivity].
      unfold mitmStage, MITM. rewrite Hic. run_monad. cbv beta iota.
      rewrite Hmitm. reflexivity. }
  destruct (w_handshake W (start ++ [EvMITM downstream u0])%list u')
    as [herr|] eqn:Hshake.
  { destruct (return_and_close W (Some herr) u'
                (start ++ [EvMITM downstream u0; EvHandshake u';
                           EvLog LError "HandshakeErr"])%list)
      as (tail & Hrun & Htail).
    exists tail. split; [|split; [exact Htail|]].
    - unfold mitmStage, MITM. rewrite Hic.
      revert Hrun. run_monad. cbv beta iota. rewrite Hmitm.
      cbv beta iota zeta. rewrite Hshake.
      cbv beta iota. rewrite <- !app_assoc. cbn [app]. now intros ->.
    - destruct Htail as [->| ->]; reflexivity. }
  cbv zeta.
  destruct (w_peek W (start ++ [EvMITM downstream u0; EvHandshake u'])%list d')
    as [peek consumed] eqn:Hpeek.
  cbn [fst snd].
  assert (Hstage : mitmStage W proxy handle ctx addr u0 downstream start
                   = (match Rereader consumed with
                      | inr rrErr =>
                          mret (Returned
                                  (Some (errors_New W "Unable to re-read data: "
                                           (Some rrErr))) u')
                      | inl rr =>
                          match peek with
                          | inl _ =>
                              r ← handle (WithUpstreamAddr None
                                            (WithUpstream None ctx))
                                    (MultiReader rr (ConnReader d')) d' (Some u');
                              mret (Returned r u')
                          | inr _ => mret (FallThrough (Some rr) d' u')
                          end
                      end) (start ++ [EvMITM downstream u0; EvHandshake u';
                                      EvPeekRequest d'])%list).
  { unfold mitmStage, MITM. rewrite Hic. run_monad. cbv beta iota.
    rewrite Hmitm. cbv beta iota zeta. rewrite Hshake. cbv beta iota.
    rewrite <- !app_assoc. cbn [app]. rewrite Hpeek. reflexivity. }
  unfold Rereader in Hstage.
  destruct (maxHTTPSize <? Z.of_nat (length consumed))%Z.
  { destruct (return_and_close W
                (Some (errors_New W "Unable to re-read data: "
                         (Some ErrOverflowed)))
                u' (start ++ [EvMITM downstream u0; EvHandshake u';
                              EvPeekRequest d'])%list)
      as (tail & Hrun & Htail).
    exists tail. split; [|split; [exact Htail|]].
    - unfold mbind at 1, M_bind at 1, bind at 1.
      unfold mbind at 1, M_bind at 1, bind at 1. rewrite Hstage.
      revert Hrun. run_monad. cbv beta iota.
      rewrite <- !app_assoc. cbn [app]. now intros ->.
    - destruct Htail as [->| ->]; reflexivity. }
  destruct peek as [parsed|perr].
  2:{ apply Hpipes; [|reflexivity]. exact Hstage. }
  split; [reflexivity|].
  destruct (handle (WithUpstreamAddr None (WithUpstream None ctx))
              (MultiReader consumed (ConnReader d')) d' (Some u')
              (start ++ [EvMITM downstream u0; EvHandshake u';
                         EvPeekRequest d'])%list) as [[res|] t'] eqn:Hh.
  - assert (Hs : mitmStage W proxy handle ctx addr u0 downstream start
                 = (Some (Returned res u'), t')).
    { rewrite Hstage. erewrite bind_step by exact Hh. reflexivity. }
    destruct (close_upstream_run W res u' t') as (tail & Hc & Htail).
    exists tail. split; [|exact Htail].
    erewrite bind_step by (erewrite bind_step by exact Hs; reflexivity).
    cbv beta iota. exact Hc.
  - assert (Hs : mitmStage W proxy handle ctx addr u0 downstream start
                 = (None, t')).
    { rewrite Hstage. now apply bind_stop. }
    apply bind_stop. now apply bind_stop.
Qed.

(** The three kinds of path on the sample outside: a plain pipe, the pipe
    after a parse that failed on one byte, and decrypted HTTP. *)
Example tunnel_path_samples :
  tunnel_path (sample_world (inl origin) false (inr EOF, [])) eager_proxy []
    client origin
  = Pipes [] None client origin
  /\ tunnel_path
       (sample_world (inl origin) true
          (inr (OtherError "malformed HTTP request"), [Byte.x16]))
       mitm_proxy [] client origin
     = Pipes [EvMITM client origin; EvHandshake origin; EvPeekRequest client]
         (Some [Byte.x16]) client origin
  /\ tunnel_path (sample_world (inl origin) true (inl (request_with ∅), []))
       mitm_proxy [] client origin
     = ReentersHandle
         [EvMITM client origin; EvHandshake origin; EvPeekRequest client]
         [] client origin.
Proof. repeat split. Qed.

(** ** Runs of the whole engine *)

(** The third end-to-end scenario: eager-OK, and the dial fails later.  The
    client sees 200, then the tunnel dials and gives up; no 502. *)
Example scenario_eager_OK_dial_fails :
  let W := sample_world (inr refused) false (inr EOF, []) in
  let run := handle W eager_proxy 2 background (ConnReader client) client None [] in
  fst run = Some (Some refused)
  /\ map step_of (snd run) = [SRead; SWrite 200; SLog; SDial; SClose client].
Proof. vm_compute. split; reflexivity. Qed.

(** The fourth scenario: wait-for-upstream, and the dial fails.  The client
    sees 502 and no 200. *)
Example scenario_wait_dial_fails :
  let W := sample_world (inr refused) false (inr EOF, []) in
  let run := handle W waiting_proxy 2 background (ConnReader client) client None [] in
  map step_of (snd run)
  = [SRead; SDial; SLog; SWrite 502; SLog; SRead; SClose client]
  /\ statuses_written (snd run) = [502%Z].
Proof. vm_compute. split; reflexivity. Qed.

(** A plain tunnel: two buffers out, the two-way copy, both buffers back. *)
Example scenario_plain_tunnel :
  let W := sample_world (inl origin) false (inr EOF, []) in
  let run := handle W eager_proxy 2 background (ConnReader client) client None [] in
  fst run = Some None
  /\ map step_of (snd run)
     = [SRead; SWrite 200; SLog; SDial; SGet 4; SGet 5; SPipe; SPut 5; SPut 4;
        SClose origin; SClose client].
Proof. vm_compute. split; reflexivity. Qed.

(** MITM with a decrypted stream that is no HTTP: the bytes the parse
    attempt read are replayed upstream before the two-way copy. *)
Example scenario_mitm_not_http :
  let junk := [Byte.x16; Byte.x03; Byte.x01] in
  let W := sample_world (inl origin) true (inr (OtherError "malformed HTTP request"), junk) in
  let run := handle W mitm_proxy 2 background (ConnReader client) client None [] in
  map step_of (snd run)
  = [SRead; SWrite 200; SLog; SDial; SMITM; SShake; SPeek; SGet 7; SGet 8;
     SReplay 3; SPipe; SPut 8; SPut 7; SClose origin; SClose client].
Proof. vm_compute. split; reflexivity. Qed.

(** MITM with a decrypted stream that starts with an HTTP request: the
    tunnel takes no buffer and hands over to [handle]. *)
Example scenario_mitm_http :
  let W := sample_world (inl origin) true (inl (request_with ∅), []) in
  let run := handle W mitm_proxy 2 background (ConnReader client) client None [] in
  map step_of (snd run)
  = [SRead; SWrite 200; SLog; SDial; SMITM; SShake; SPeek; SRead;
     SClose client; SClose origin; SClose client].
Proof. vm_compute. reflexivity. Qed.

(** ** The theorems at concrete inputs *)

Lemma writeResponse_proto0_is_HTTP11_witness :
  RespProtoMajor (emptyResponse 100) = 0%Z
  /\ fst (responseOnWire (sample_world (inl origin) false (inr EOF, []))
            eager_proxy "now" (ToConn client) None (emptyResponse 100))
     = ToConn client.
Proof.
  split; [reflexivity|].
  exact (proj1 (writeResponse_proto0_is_HTTP11
                  (sample_world (inl origin) false (inr EOF, []))
                  eager_proxy (ToConn client) None (emptyResponse 100) []
                  eq_refl)).
Defined.



Lemma mitm_parse_failure_replays_before_piping_witness :
  mitmIC mitm_proxy = true
  /\ exists rest,
       snd (proceedWithConnect
              (sample_world (inl origin) true
                 (inr (OtherError "malformed HTTP request"), [Byte.x16]))
              mitm_proxy
              (fun _ _ _ _ => mret None)
              background "example:443" None client [])
       = ([EvDial true "tcp" "example:443"; EvMITM client origin;
           EvHandshake origin; EvPeekRequest client; EvGet 4; EvGet 5]
          ++ EvCopyBuffer origin [Byte.x16] 4 :: rest)%list.
Proof.
  split; [reflexivity|].
  pose proof (mitm_parse_failure_replays_before_piping
                (sample_world (inl origin) true
                   (inr (OtherError "malformed HTTP request"), [Byte.x16]))
                mitm_proxy (fun _ _ _ _ => mret None)
                background "example:443" None client [] origin client origin
                (OtherError "malformed HTTP request") [Byte.x16]
                eq_refl eq_refl eq_refl eq_refl eq_refl
                ltac:(vm_compute; discriminate)) as H.
  cbv zeta in H. destruct H as [rest [Hrest _]].
  exists rest. exact Hrest.
Defined.

(** * Further properties *)

(** ** Header copying *)

(** The copy of a sequence of entries with distinct canonical keys, none of
    them Connection, into [dst]. *)
Lemma copyHeaders_no_Connection (src : list (string * list string)) :
  forall (dst : Header) (k : string),
    List.NoDup (map fst src) ->
    Forall (fun kvv => canonical (fst kvv) /\ fst kvv <> "Connection") src ->
    fold_left copyHeader src (dst, [])
    = (fst (fold_left copyHeader src (dst, [])), [])
    /\ fst (fold_left copyHeader src (dst, [])) !! k
       = match kept k (entry_of k src) with
         | Some vv => Some (default [] (dst !! k) ++ vv)%list
         | None => dst !! k
         end.
Proof.
  induction src as [|[k' vv'] src IH]; intros dst k Hnd Hsrc.
  - split; reflexivity.
  - inversion Hnd as [|? ? Hk' Hnd']; subst.
    inversion Hsrc as [|? ? [Hcan Hne] Hrest]; subst. cbn [fst] in Hcan, Hne.
    cbn [fold_left entry_of].
    assert (Hstep : exists dst',
               copyHeader (dst, []) (k', vv') = (dst', [])
               /\ dst' !! k = if String.eqb k k'
                              then match kept k (Some vv') with
                                   | Some vv => Some (default [] (dst !! k) ++ vv)%list
                                   | None => dst !! k
                                   end
                              else dst !! k).
    { unfold copyHeader.
      destruct (String.eqb_spec k' "Connection") as [?|_]; [contradiction|].
      destruct (String.eqb_spec k k') as [->|Hkk].
      - unfold kept. destruct (contains k' skippedHopByHop).
        + eexists. split; [reflexivity|]. now destruct vv'.
        + cbn [contains negb]. eexists. split; [reflexivity|].
          destruct vv' as [|v vs]; [reflexivity|].
          pose proof (lookup_Add_all_eq k' (v :: vs) dst) as Hadd.
          unfold canonical in Hcan. rewrite Hcan in Hadd.
          apply Hadd. discriminate.
      - destruct (contains k' skippedHopByHop).
        + eexists. split; reflexivity.
        + cbn [contains negb]. eexists. split; [reflexivity|].
          apply lookup_Add_all_ne. unfold canonical in Hcan. rewrite Hcan.
          congruence. }
    destruct Hstep as (dst' & -> & Hdst').
    destruct (IH dst' k Hnd' Hrest) as [Hextra Hlook]. split; [exact Hextra|].
    rewrite Hlook, Hdst'.
    destruct (String.eqb_spec k k') as [->|Hkk].
    + rewrite (entry_of_None k' src Hk'). cbn [kept]. reflexivity.
    + reflexivity.
Qed.

(** X1.  Without a Connection header and with canonical keys, the copy is
    the same for every order in which [range] visits the source: a header
    outside the fixed hop-by-hop names arrives with all its values in their
    order, a header of the fixed names and a header without values do not
    arrive, and nothing else does. *)
Theorem copyHeaders_without_Connection (h : Header)
    (visit : list (string * list string)) (k : string)
    (Hvisit : range_of h visit)
    (Hcanon : canonical_keys h)
    (Hnone : h !! "Connection" = None) :
  copyHeadersForForwarding ∅ visit !! k = kept k (h !! k).
Proof.
  assert (Hnd : List.NoDup (map fst visit)).
  { apply NoDup_ListNoDup. unfold range_of in Hvisit. rewrite Hvisit.
    apply NoDup_fst_map_to_list. }
  assert (Hall : Forall (fun kvv => canonical (fst kvv)
                                    /\ fst kvv <> "Connection") visit).
  { apply (range_of_Forall h visit
             (fun k => canonical k /\ k <> "Connection") Hvisit).
    intros k0 vv Hk0. split; [now apply (Hcanon k0 vv)|]. congruence. }
  unfold copyHeadersForForwarding.
  destruct (copyHeaders_no_Connection visit ∅ k Hnd Hall) as [_ Hlook].
  rewrite Hlook, (range_of_entry h visit k Hvisit), lookup_empty.
  now destruct (kept k (h !! k)).
Qed.

Lemma plain_headers_canonical : canonical_keys plain_headers.
Proof.
  intros k vv Hk. unfold plain_headers in Hk.
  destruct (decide (k = "Accept")) as [->|]; [reflexivity|].
  rewrite lookup_insert_ne in Hk by congruence.
  destruct (decide (k = "Keep-Alive")) as [->|]; [reflexivity|].
  rewrite lookup_insert_ne in Hk by congruence.
  destruct (decide (k = "X-Empty")) as [->|]; [reflexivity|].
  rewrite lookup_insert_ne in Hk by congruence.
  rewrite lookup_empty in Hk. discriminate.
Qed.

Lemma copyHeaders_without_Connection_witness :
  copyHeadersForForwarding ∅ (map_to_list plain_headers) !! "Accept"
  = kept "Accept" (plain_headers !! "Accept").
Proof.
  apply (copyHeaders_without_Connection plain_headers
           (map_to_list plain_headers) "Accept").
  - unfold range_of. reflexivity.
  - exact plain_headers_canonical.
  - vm_compute. reflexivity.
Defined.

Example copyHeaders_plain :
  copyHeadersForForwarding ∅ (map_to_list plain_headers)
  = <["Accept" := ["text/html"; "text/plain"]]> ∅.
Proof. vm_compute. reflexivity. Qed.

(** X2.  When [range] meets the Connection header first, no header whose
    canonical name is one of the Connection values is copied, whatever the
    order of the rest. *)
Theorem Connection_first_drops_named (vv : list string)
    (rest : list (string * list string)) (k : string)
    (Hrest : Forall (fun kvv => canonical (fst kvv)
                                /\ fst kvv <> "Connection") rest)
    (Hk : In k vv) :
  copyHeadersForForwarding ∅ (("Connection", vv) :: rest) !! k = None.
Proof. now apply copyHeadersForForwarding_Connection_first. Qed.

Lemma Connection_first_drops_named_witness :
  copyHeadersForForwarding ∅
    [("Connection", ["X-Foo"]); ("X-Foo", ["drop"]); ("X-Keep", ["keep"])]
    !! "X-Foo" = None.
Proof.
  apply (Connection_first_drops_named ["X-Foo"]
           [("X-Foo", ["drop"]); ("X-Keep", ["keep"])] "X-Foo").
  - repeat constructor; cbn; congruence.
  - now left.
Defined.

(** X3.  [contains] is membership by exact comparison of strings. *)
Theorem contains_is_membership (k : string) (s : list string) :
  (contains k s = true <-> In k s) /\ (contains k s = false <-> ~ In k s).
Proof.
  pose proof (contains_true_iff k s) as H. split; [exact H|].
  destruct (contains k s); split; intros H'; try reflexivity;
    try discriminate.
  - exfalso. apply H'. now apply H.
  - intros Hin. apply H in Hin. discriminate.
Qed.

Lemma hopByHop_not_set (j : string) :
  In j hopByHop -> j <> "Host" /\ j <> "User-Agent" /\ j <> "Date".
Proof.
  intros Hj. cbn in Hj.
  repeat (destruct Hj as [<-|Hj]; [repeat split; discriminate|]).
  contradiction.
Qed.

Lemma prepareRequest_other_header range req k :
  k <> "Host" -> k <> "User-Agent" ->
  RHeader (prepareRequest range req) !! k
  = copyHeadersForForwarding ∅ (range (RHeader req)) !! k.
Proof.
  intros Hhost Hua. rewrite prepareRequest_Header. cbv zeta.
  unfold forwardedHeaders.
  destruct (String.eqb _ "").
  - unfold Del, Set_. rewrite canonical_User_Agent.
    rewrite lookup_delete_ne by congruence.
    change (CanonicalMIMEHeaderKey "Host") with "Host".
    now rewrite lookup_insert_ne by congruence.
  - unfold Set_. rewrite canonical_User_Agent.
    rewrite lookup_insert_ne by congruence.
    change (CanonicalMIMEHeaderKey "Host") with "Host".
    now rewrite lookup_insert_ne by congruence.
Qed.

Lemma prepareResponse_other_header range now resp belowHTTP11 k :
  k <> "Date" ->
  RespHeader (prepareResponse range now resp belowHTTP11) !! k
  = copyHeadersForForwarding ∅ (range (RespHeader resp)) !! k.
Proof.
  intros Hdate. unfold prepareResponse. cbn [RespHeader].
  destruct (String.eqb _ ""); [|reflexivity].
  unfold Set_. change (CanonicalMIMEHeaderKey "Date") with "Date".
  now rewrite lookup_insert_ne by congruence.
Qed.

(** X4.  With canonical source keys, neither the request [prepareRequest]
    produces nor the response [prepareResponse] produces carries a header
    under a fixed hop-by-hop name that is a canonical key (Connection,
    Keep-Alive, Proxy-Authenticate, Proxy-Authorization, Trailers,
    Transfer-Encoding, Upgrade), in whatever order the source is visited.
    The eighth case of the switch, TE, is no canonical key: a parsed message
    holds that header under Te, the case never matches it, and a Te header
    that Connection does not name is forwarded with its values. *)
Theorem prepared_messages_without_fixed_hop_by_hop
    (range : Header -> list (string * list string))
    (req : Request) (resp : Response) (now : string) (belowHTTP11 : bool)
    (j : string)
    (Hreq : Forall (fun kvv => canonical (fst kvv)) (range (RHeader req)))
    (Hresp : Forall (fun kvv => canonical (fst kvv)) (range (RespHeader resp)))
    (Hj : In j hopByHop)
    (Hcanon : canonical j) :
  (RHeader (prepareRequest range req) !! j = None
   /\ RespHeader (prepareResponse range now resp belowHTTP11) !! j = None)
  /\ (In "TE" hopByHop /\ CanonicalMIMEHeaderKey "TE" = "Te")
  /\ (forall v vs,
        range_of (RHeader req) (range (RHeader req)) ->
        canonical_keys (RHeader req) ->
        ~ In "Te" (default [] (RHeader req !! "Connection")) ->
        RHeader req !! "Te" = Some (v :: vs) ->
        RHeader (prepareRequest range req) !! "Te" = Some (v :: vs))
  /\ (forall v vs,
        range_of (RespHeader resp) (range (RespHeader resp)) ->
        canonical_keys (RespHeader resp) ->
        ~ In "Te" (default [] (RespHeader resp !! "Connection")) ->
        RespHeader resp !! "Te" = Some (v :: vs) ->
        RespHeader (prepareResponse range now resp belowHTTP11) !! "Te"
        = Some (v :: vs)).
Proof.
  destruct (hopByHop_not_set j Hj) as (Hhost & Hua & Hdate).
  split; [split|split; [|split]].
  - rewrite prepareRequest_other_header by assumption.
    now apply copyHeadersForForwarding_drops_fixed_set.
  - rewrite prepareResponse_other_header by assumption.
    now apply copyHeadersForForwarding_drops_fixed_set.
  - split; [|reflexivity]. cbn. tauto.
  - intros v vs Hvisit Hkeys Hnot Hte.
    rewrite prepareRequest_other_header by discriminate.
    rewrite (copyHeadersForForwarding_not_named (RHeader req) _ "Te" Hvisit
               Hkeys ltac:(discriminate) Hnot).
    now rewrite Hte.
  - intros v vs Hvisit Hkeys Hnot Hte.
    rewrite prepareResponse_other_header by discriminate.
    rewrite (copyHeadersForForwarding_not_named (RespHeader resp) _ "Te"
               Hvisit Hkeys ltac:(discriminate) Hnot).
    now rewrite Hte.
Qed.

Lemma prepared_messages_without_fixed_hop_by_hop_witness :
  RHeader (prepareRequest map_to_list (request_with plain_headers))
    !! "Keep-Alive" = None.
Proof.
  refine (proj1 (proj1 (prepared_messages_without_fixed_hop_by_hop map_to_list
                          (request_with plain_headers) (emptyResponse 200)
                          "now" false "Keep-Alive" _ _ _ _))).
  - apply (range_of_Forall plain_headers); [|exact plain_headers_canonical].
    unfold range_of. reflexivity.
  - vm_compute. apply List.Forall_nil.
  - right. left. reflexivity.
  - reflexivity.
Defined.

(** A request with [Te: trailers] and a Keep-Alive header: Te goes out,
    Keep-Alive does not. *)
Example Te_header_forwarded :
  let hdr : Header := <["Te" := ["trailers"]]> (<["Keep-Alive" := ["5"]]> ∅) in
  RHeader (prepareRequest map_to_list (request_with hdr)) !! "Te"
  = Some ["trailers"]
  /\ RHeader (prepareRequest map_to_list (request_with hdr)) !! "Keep-Alive"
     = None.
Proof. vm_compute. split; reflexivity. Qed.

Lemma cloneURL_id (u : URL) : cloneURL u = u.
Proof. destruct u as [s [usr|] h p]; reflexivity. Qed.

(** X5.  [prepareRequest] always produces an HTTP/1.1 request with the close
    flag cleared, a Host header holding exactly the request's host, the URL
    host set to the request's host and the scheme http where there was none;
    method, host, remote address, URL path, user and a scheme that was there
    are kept. *)
Theorem prepareRequest_shape (range : Header -> list (string * list string))
    (req : Request) :
  let out := prepareRequest range req in
  Proto out = "HTTP/1.1" /\ ProtoMajor out = 1%Z /\ ProtoMinor out = 1%Z
  /\ Close out = false
  /\ Method out = Method req /\ Host out = Host req
  /\ RemoteAddr out = RemoteAddr req
  /\ RHeader out !! "Host" = Some [Host req]
  /\ UHost (RURL out) = Host req
  /\ Scheme (RURL out) = (if String.eqb (Scheme (RURL req)) ""
                          then "http" else Scheme (RURL req))
  /\ Path (RURL out) = Path (RURL req)
  /\ User (RURL out) = User (RURL req).
Proof.
  cbv zeta.
  assert (Hhost : RHeader (prepareRequest range req) !! "Host"
                  = Some [Host req]).
  { rewrite prepareRequest_Header. cbv zeta. unfold forwardedHeaders.
    destruct (String.eqb _ "").
    - unfold Del, Set_. rewrite canonical_User_Agent.
      rewrite lookup_delete_ne by discriminate.
      change (CanonicalMIMEHeaderKey "Host") with "Host".
      apply lookup_insert_eq.
    - unfold Set_. rewrite canonical_User_Agent.
      rewrite lookup_insert_ne by discriminate.
      change (CanonicalMIMEHeaderKey "Host") with "Host".
      apply lookup_insert_eq. }
  assert (Hrest :
            let out := prepareRequest range req in
            Proto out = "HTTP/1.1" /\ ProtoMajor out = 1%Z
            /\ ProtoMinor out = 1%Z /\ Close out = false
            /\ Method out = Method req /\ Host out = Host req
            /\ RemoteAddr out = RemoteAddr req
            /\ UHost (RURL out) = Host req
            /\ Scheme (RURL out) = (if String.eqb (Scheme (RURL req)) ""
                                    then "http" else Scheme (RURL req))
            /\ Path (RURL out) = Path (RURL req)
            /\ User (RURL out) = User (RURL req)).
  { clear Hhost. unfold prepareRequest, UserAgent. cbv zeta.
    rewrite !cloneURL_id.
    destruct req as [m [sch usr uh pth] p pM pm h hst cl ra].
    cbn -[copyHeadersForForwarding Set_ Del Get String.eqb].
    destruct (String.eqb sch "");
      cbn -[copyHeadersForForwarding Set_ Del Get String.eqb];
      match goal with
      | |- context [if ?b then _ else _] => destruct b
      end; cbn; repeat split; reflexivity. }
  cbv zeta in Hrest. tauto.
Qed.

(** X6.  [prepareResponse] keeps status, protocol version, close flag, body
    and request of the response, clears the transfer encoding exactly when
    the client is below HTTP/1.1, and leaves a Date header that is the copied
    one when that is not empty and the current time otherwise. *)
Theorem prepareResponse_shape (range : Header -> list (string * list string))
    (now : string) (resp : Response) (belowHTTP11 : bool) :
  let out := prepareResponse range now resp belowHTTP11 in
  let copied := copyHeadersForForwarding ∅ (range (RespHeader resp)) in
  StatusCode out = StatusCode resp
  /\ RespProtoMajor out = RespProtoMajor resp
  /\ RespProtoMinor out = RespProtoMinor resp
  /\ RespClose out = RespClose resp
  /\ Body out = Body resp
  /\ RespRequest out = RespRequest resp
  /\ TransferEncoding out
     = (if belowHTTP11 then [] else TransferEncoding resp)
  /\ Get "Date" (RespHeader out)
     = (if String.eqb (Get "Date" copied) "" then now
        else Get "Date" copied).
Proof.
  cbv zeta. unfold prepareResponse.
  cbn [StatusCode RespProtoMajor RespProtoMinor RespClose Body RespRequest
       TransferEncoding RespHeader].
  repeat split.
  destruct (String.eqb (Get "Date" _) "") eqn:Hd; [|reflexivity].
  unfold Get at 1, Set_. now rewrite lookup_insert_eq.
Qed.

(** X7.  A response below HTTP/1.1 (with a protocol version that is set):
    with a status under 200 it is written to [Discard] and goes out as it
    came, headers and transfer encoding untouched; with any other status it
    is written to the writer it was meant for, with the transfer encoding
    cleared. *)
Theorem writeResponse_below_HTTP11 (W : World) (proxy : Opts)
    (downstream : Writer) (req : option Request) (resp : Response)
    (t : Trace)
    (Hset : RespProtoMajor resp <> 0%Z)
    (Hbelow : ProtoAtLeast resp 1 1 = false) :
  let wire := responseOnWire W proxy (w_now W t) downstream req resp in
  (if (StatusCode resp <? 200)%Z
   then fst wire = Discard
        /\ RespHeader (snd wire) = RespHeader resp
        /\ TransferEncoding (snd wire) = TransferEncoding resp
   else fst wire = downstream /\ TransferEncoding (snd wire) = [])
  /\ StatusCode (snd wire) = StatusCode resp
  /\ exists rest,
       snd (writeResponse W proxy downstream req resp t)
       = (t ++ EvResponseWrite (fst wire) (snd wire) :: rest)%list.
Proof.
  cbv zeta.
  assert (Hw : responseOnWire W proxy (w_now W t) downstream req resp
               = let resp' := match RespRequest resp with
                              | None => with_RespRequest req resp
                              | Some _ => resp
                              end in
                 if (StatusCode resp <? 200)%Z then (Discard, resp')
                 else
                   let r := prepareResponse (w_range W) (w_now W t) resp' true in
                   (downstream,
                    with_RespHeader (addIdleKeepAlive proxy (RespHeader r)) r)).
  { unfold responseOnWire. cbv zeta.
    assert (Hp : forall r, RespProtoMajor r = RespProtoMajor resp ->
                           RespProtoMinor r = RespProtoMinor resp ->
                           StatusCode r = StatusCode resp ->
                           (if (RespProtoMajor r =? 0)%Z
                            then with_RespProto 1 1 r else r) = r
                           /\ ProtoAtLeast r 1 1 = false).
    { intros r HM Hm Hs. apply Z.eqb_neq in Hset. rewrite HM, Hset.
      split; [reflexivity|]. unfold ProtoAtLeast in *. now rewrite HM, Hm. }
    destruct (RespRequest resp).
    - destruct (Hp resp eq_refl eq_refl eq_refl) as [-> ->]. reflexivity.
    - destruct (Hp (with_RespRequest req resp) eq_refl eq_refl eq_refl)
        as [-> ->]. reflexivity. }
  split; [|split].
  - rewrite Hw. cbv zeta. destruct (StatusCode resp <? 200)%Z; cbn [fst snd].
    + destruct (RespRequest resp); repeat split; reflexivity.
    + split; reflexivity.
  - rewrite Hw. cbv zeta.
    destruct (StatusCode resp <? 200)%Z, (RespRequest resp); reflexivity.
  - unfold writeResponse. run_monad.
    destruct (responseOnWire W proxy (w_now W t) downstream req resp)
      as [out wire].
    cbn [fst snd].
    destruct (w_write W t out wire), (Body wire); cbn;
      rewrite <- ?app_assoc; cbn; eexists; reflexivity.
Qed.

Lemma writeResponse_below_HTTP11_witness :
  fst (responseOnWire (sample_world (inl origin) false (inr EOF, []))
         eager_proxy "now" (ToConn client) None (http10_response 100))
  = Discard.
Proof.
  pose proof (writeResponse_below_HTTP11
                (sample_world (inl origin) false (inr EOF, []))
                eager_proxy (ToConn client) None (http10_response 100) []
                ltac:(discriminate) eq_refl) as H.
  cbv zeta in H. exact (proj1 (proj1 H)).
Defined.

(** ** Error messages *)

Lemma append_assoc_str (a b c : string) : (a ++ b) ++ c = a ++ (b ++ c).
Proof.
  induction a as [|x a IH]; [reflexivity|].
  change (String x ((a ++ b) ++ c) = String x (a ++ (b ++ c))).
  now f_equal.
Qed.

Lemma HasSuffix_prefixed p s suf :
  HasSuffix s suf = true -> HasSuffix (p ++ s) suf = true.
Proof.
  rewrite !HasSuffix_spec. intros [l ->]. exists (p ++ l).
  now rewrite append_assoc_str.
Qed.

Lemma Contains_prefixed p s sub :
  Contains s sub = true -> Contains (p ++ s) sub = true.
Proof.
  rewrite !Contains_spec. intros (l & r & ->). exists (p ++ l), r.
  now rewrite append_assoc_str.
Qed.

Lemma expected_message_prefixed p s :
  isUnexpected (Some (OtherError s)) = false ->
  isUnexpected (Some (OtherError (p ++ s))) = false.
Proof.
  unfold isUnexpected. cbn [is_io_EOF is_net_timeout Error].
  rewrite !andb_false_iff, !negb_false_true.
  pose proof (HasSuffix_prefixed p s "EOF").
  pose proof (Contains_prefixed p s "i/o timeout").
  pose proof (Contains_prefixed p s "Use of idled network connection").
  pose proof (Contains_prefixed p s "use of closed network connection").
  pose proof (Contains_prefixed p s "broken pipe").
  pose proof (Contains_prefixed p s "connection reset by peer").
  tauto.
Qed.

(** X8.  The message tests of [isUnexpected] look at the end of the text
    and inside it, so text put in front of a message changes nothing: an
    error that is expected by its message is still expected with any text in
    front of that message, whether or not the error is a [net.Error]. *)
Theorem expected_message_survives_prefix (p s : string) (timeout : bool)
    (Hexpected : isUnexpected (Some (OtherError s)) = false) :
  isUnexpected (Some (OtherError (p ++ s))) = false
  /\ isUnexpected (Some (NetError timeout (p ++ s))) = false.
Proof.
  pose proof (expected_message_prefixed p s Hexpected) as H.
  split; [exact H|]. destruct timeout; [reflexivity | exact H].
Qed.

Lemma expected_message_survives_prefix_witness :
  isUnexpected (Some (OtherError "read tcp 10.0.0.9:4000: i/o timeout"))
  = false.
Proof.
  exact (proj1 (expected_message_survives_prefix "read tcp 10.0.0.9:4000: "
                  "i/o timeout" false eq_refl)).
Defined.

(** Text after the message is another matter: the EOF test looks at the
    end. *)
Example expected_message_lost_under_suffix :
  isUnexpected (Some (OtherError "unexpected EOF")) = false
  /\ isUnexpected (Some (OtherError "unexpected EOF (attempt 2)")) = true.
Proof. split; reflexivity. Qed.

(** ** Defaults *)

(** X9.  After [applyHTTPDefaults] neither the filter nor the error handler
    is nil; a handler that was set is kept, a missing one is the default
    that answers with no response; the filter chain computes what it
    computed before on every input, with or without the idle-timeout
    wrapper; the other options are untouched. *)
Theorem applyHTTPDefaults_fills_in (opts : Opts) :
  let opts' := applyHTTPDefaults opts in
  (exists f, Filter_ opts' = Some f
             /\ forall ctx req next, f ctx req next = Filter_Apply opts ctx req next)
  /\ OnError opts' = Some (call_OnError opts)
  /\ (OnError opts = None ->
      forall ctx req reading err, call_OnError opts' ctx req reading err = None)
  /\ IdleTimeout opts' = IdleTimeout opts
  /\ OKWaitsForUpstream opts' = OKWaitsForUpstream opts
  /\ mitmIC opts' = mitmIC opts.
Proof.
  cbv zeta. unfold applyHTTPDefaults, Filter_Apply, call_OnError.
  cbn [Filter_ OnError IdleTimeout OKWaitsForUpstream mitmIC].
  split; [|split; [|split]].
  - eexists. split; [reflexivity|]. intros ctx req next.
    destruct (0 <? IdleTimeout opts)%Z, (Filter_ opts); reflexivity.
  - destruct (OnError opts); reflexivity.
  - intros ->. reflexivity.
  - repeat split.
Qed.

(** ** What a run adds to the trace *)

Lemma emits_ret {A} (P : Event -> Prop) (Q : A -> Prop) (a : A) :
  Q a -> emits P Q (mret a).
Proof.
  intros Ha t. exists []. cbn. rewrite app_nil_r. repeat split; auto.
Qed.

Lemma emits_out_of_fuel {A} (P : Event -> Prop) (Q : A -> Prop) :
  emits P Q (@out_of_fuel A).
Proof.
  intros t. exists []. cbn. rewrite app_nil_r. repeat split; auto.
Qed.

Lemma emits_call {A} (P : Event -> Prop) (Q : A -> Prop) (e : Event)
    (f : Trace -> A) :
  P e -> (forall t, Q (f t)) -> emits P Q (call e f).
Proof.
  intros He Hf t. exists [e]. cbn. repeat split; auto.
Qed.

Lemma emits_query {A} (P : Event -> Prop) (Q : A -> Prop) (f : Trace -> A) :
  (forall t, Q (f t)) -> emits P Q (query f).
Proof.
  intros Hf t. exists []. cbn. rewrite app_nil_r. repeat split; auto.
Qed.

Lemma emits_bind {A B} (P : Event -> Prop) (Q : A -> Prop) (R : B -> Prop)
    (m : M A) (k : A -> M B) :
  emits P Q m -> (forall a, Q a -> emits P R (k a)) -> emits P R (m ≫= k).
Proof.
  intros Hm Hk t. unfold mbind, M_bind, bind.
  destruct (Hm t) as (new1 & H1 & HP1 & HQ).
  destruct (m t) as [[a|] t1]; cbn in H1, HQ; subst.
  - destruct (Hk a HQ (t ++ new1)%list) as (new2 & H2 & HP2 & HR).
    exists (new1 ++ new2)%list. rewrite H2, app_assoc.
    split; [reflexivity|]. split; [|exact HR].
    apply Forall_app. now split.
  - exists new1. cbn. repeat split; auto.
Qed.

Lemma emits_weaken {A} (P P' : Event -> Prop) (Q Q' : A -> Prop) (m : M A) :
  emits P Q m -> (forall e, P e -> P' e) -> (forall a, Q a -> Q' a) ->
  emits P' Q' m.
Proof.
  intros Hm HP HQ t. destruct (Hm t) as (new & H1 & H2 & H3).
  exists new. split; [exact H1|]. split.
  - eapply Forall_impl; eauto.
  - destruct (fst (m t)); auto.
Qed.

Lemma write_call_loop_call e : write_call e -> loop_call e.
Proof. destruct e; cbn; tauto. Qed.

Lemma emits_writeResponse (W : World) (proxy : Opts) (P : Event -> Prop)
    out req resp :
  (forall e, write_call e -> P e) ->
  emits P anything (writeResponse W proxy out req resp).
Proof.
  intros HP. unfold writeResponse.
  apply emits_bind with (Q := anything); [now apply emits_query|].
  intros now _. destruct (responseOnWire W proxy now out req resp) as [o r].
  apply emits_bind with (Q := anything).
  { apply emits_call; [apply HP; exact I | easy]. }
  intros err _. apply emits_bind with (Q := anything).
  { destruct err, (Body r);
      first [ apply emits_call; [apply HP; exact I | easy]
            | now apply emits_ret ]. }
  intros _ _. apply emits_bind with (Q := anything).
  { apply emits_call; [apply HP; exact I | easy]. }
  intros _ _. now apply emits_ret.
Qed.

Lemma no_upstream_not_connect (ctx : Context) :
  no_upstream ctx ->
  bool_decide (upstreamConn ctx ≠ None) || negb (String.eqb (upstreamAddr ctx) "")
  = false.
Proof.
  intros [Hc Ha]. unfold upstreamConn, upstreamAddr. rewrite Hc, Ha.
  cbn. reflexivity.
Qed.

Lemma no_upstream_Increment (ctx : Context) :
  no_upstream ctx -> no_upstream (IncrementRequestNumber ctx).
Proof. intros [H1 H2]. split; assumption. Qed.

(** The request loop over a terminal step that leaves the context alone,
    from a context without upstream entries: the loop never enters the
    tunnel, and all it adds to the trace are the calls of the terminal step
    and its own writes, logs and reads. *)
Lemma processRequests_plain (W : World) (proxy : Opts)
    (handle : Context -> Reader -> Conn -> option Conn -> M error)
    (P : Event -> Prop) (Inv : Request -> Prop) (next : Next)
    (remoteAddr : string) (buffered : Reader)
    (Hfwd : forall c r n, Filter_Apply proxy c r n = n c r)
    (Hloop : forall e, loop_call e -> P e)
    (Hnext : forall c r, Inv r -> emits P (same_context c) (next c r))
    (Hfill : forall c r, Inv r -> Inv (backfilled c r))
    (Hnew : forall r, Inv (with_RemoteAddr remoteAddr r)) :
  forall fuel ctx req downstream,
    no_upstream ctx -> Inv req ->
    emits P anything
      (processRequests W proxy handle fuel ctx remoteAddr req downstream
         buffered next).
Proof.
  induction fuel as [|fuel IH]; intros ctx req downstream Hctx Hreq;
    cbn [processRequests].
  - apply emits_out_of_fuel.
  - assert (Hwrite : forall e, write_call e -> P e)
      by (intros e He; now apply Hloop, write_call_loop_call).
    fold (backfilled ctx req). rewrite Hfwd.
    apply emits_bind with (Q := same_context ctx);
      [apply Hnext; now apply Hfill|].
    intros [[resp ctx'] err] Hsame. unfold same_context in Hsame.
    cbn in Hsame. subst ctx'.
    apply emits_bind with (Q := anything).
    { destruct err as [e|], resp as [r|];
        first [ now apply emits_writeResponse
              | destruct (call_OnError proxy ctx _ false e);
                [now apply emits_writeResponse | now apply emits_ret]
              | now apply emits_ret ]. }
    intros writeErr _. destruct writeErr as [werr|].
    { destruct (isUnexpected (Some werr)); now apply emits_ret. }
    apply emits_bind with (Q := anything); [now apply emits_query|].
    intros b _. rewrite (no_upstream_not_connect ctx Hctx).
    destruct (Close (backfilled ctx req)); [now apply emits_ret|].
    match goal with
    | |- emits _ _ (if ?c then _ else _) => destruct c
    end; [now apply emits_ret|].
    apply emits_bind with (Q := anything).
    { apply emits_call; [apply Hloop; exact I | easy]. }
    intros [req0|readErr] _.
    + apply IH; [now apply no_upstream_Increment | apply Hnew].
    + destruct (isUnexpected (Some readErr)); [|now apply emits_ret].
      apply emits_bind with (Q := anything); [|intros; now apply emits_ret].
      destruct (call_OnError proxy ctx None true readErr);
        [|now apply emits_ret].
      apply emits_bind with (Q := anything);
        [now apply emits_writeResponse | intros; now apply emits_ret].
Qed.

Lemma emits_nextHTTP (W : World) (upstream : option Conn)
    (P : Event -> Prop) (ctx : Context) (req : Request) :
  P EvRequestAware -> P EvResponseAware ->
  (upstream = None -> P (EvDial false "tcp"
                           (UHost (RURL (prepareRequest (w_range W) req))))) ->
  (forall via,
      match upstream with
      | Some u => via = Some (NoCloseConn u)
      | None => True
      end ->
      P (EvRoundTrip (prepareRequest (w_range W) req) via)) ->
  emits P (same_context ctx) (nextHTTP W upstream ctx req).
Proof.
  intros Hreq Hresp Hdial Htrip. unfold nextHTTP.
  apply emits_bind with (Q := anything); [now apply emits_call|].
  intros _ _. apply emits_bind with (Q := anything).
  { unfold RoundTrip. destruct upstream as [up|].
    - apply emits_call; [now apply Htrip | easy].
    - apply emits_bind with (Q := anything); [now apply emits_query|].
      intros [c|] _.
      + apply emits_call; [now apply Htrip | easy].
      + apply emits_bind with (Q := anything).
        { apply emits_call; [now apply Hdial | easy]. }
        intros [conn|err] _.
        * apply emits_bind with (Q := anything); [now apply emits_call|].
          intros _ _. apply emits_call; [now apply Htrip | easy].
        * now apply emits_ret. }
  intros [resp err] _.
  apply emits_bind with (Q := anything); [now apply emits_call|].
  intros _ _. now apply emits_ret.
Qed.

Lemma RemoteAddr_prepareRequest range req :
  RemoteAddr (prepareRequest range req) = RemoteAddr req.
Proof.
  unfold prepareRequest, UserAgent. cbv zeta.
  repeat match goal with
         | |- context [if ?b then _ else _] => destruct b
         end; reflexivity.
Qed.

Lemma RemoteAddr_backfilled ctx req :
  RemoteAddr (backfilled ctx req) = RemoteAddr req.
Proof.
  unfold backfilled.
  repeat match goal with
         | |- context [if ?b then _ else _] => destruct b
         end; reflexivity.
Qed.

Lemma Close_backfilled ctx req : Close (backfilled ctx req) = Close req.
Proof.
  unfold backfilled.
  repeat match goal with
         | |- context [if ?b then _ else _] => destruct b
         end; reflexivity.
Qed.

(** ** The request loop on plain HTTP *)

(** X10.  On a connection that forwards plain HTTP, every request handed to
    the transport carries the remote address the loop was started with: the
    first request as it came, every later one because the loop stamps it. *)
Theorem forwarded_requests_keep_remote_address (W : World) (proxy : Opts)
    (handle : Context -> Reader -> Conn -> option Conn -> M error)
    (fuel : nat) (ctx : Context) (remoteAddr : string) (req : Request)
    (downstream : Conn) (buffered : Reader) (upstream : option Conn)
    (Hfwd : forall c r n, Filter_Apply proxy c r n = n c r)
    (Hctx : no_upstream ctx)
    (Hreq : RemoteAddr req = remoteAddr) :
  emits (from_remote remoteAddr) anything
    (processRequests W proxy handle fuel ctx remoteAddr req downstream
       buffered (nextHTTP W upstream)).
Proof.
  apply processRequests_plain
    with (Inv := fun r => RemoteAddr r = remoteAddr); try assumption.
  - intros e He. destruct e; cbn in *; tauto.
  - intros c r Hr. apply emits_nextHTTP; cbn; auto.
    intros via _. now rewrite RemoteAddr_prepareRequest.
  - intros c r Hr. now rewrite RemoteAddr_backfilled.
  - reflexivity.
Qed.

(** X11.  When [handle] was given an upstream connection, forwarding never
    dials: every exchange goes over that connection, wrapped so that the
    transport cannot close it. *)
Theorem supplied_upstream_never_dials (W : World) (proxy : Opts)
    (handle : Context -> Reader -> Conn -> option Conn -> M error)
    (fuel : nat) (ctx : Context) (remoteAddr : string) (req : Request)
    (downstream : Conn) (buffered : Reader) (up : Conn)
    (Hfwd : forall c r n, Filter_Apply proxy c r n = n c r)
    (Hctx : no_upstream ctx) :
  emits (over_supplied up) anything
    (processRequests W proxy handle fuel ctx remoteAddr req downstream
       buffered (nextHTTP W (Some up))).
Proof.
  apply processRequests_plain with (Inv := fun _ => True); try assumption;
    auto.
  - intros e He. destruct e; cbn in *; tauto.
  - intros c r _. apply emits_nextHTTP; cbn; auto. discriminate.
Qed.

(** X12.  A connection that forwards plain HTTP never enters the tunnel
    phase: no CONNECT dial, no MITM, no buffer taken, no copy. *)
Theorem plain_http_never_tunnels (W : World) (proxy : Opts)
    (handle : Context -> Reader -> Conn -> option Conn -> M error)
    (fuel : nat) (ctx : Context) (remoteAddr : string) (req : Request)
    (downstream : Conn) (buffered : Reader) (upstream : option Conn)
    (Hfwd : forall c r n, Filter_Apply proxy c r n = n c r)
    (Hctx : no_upstream ctx) :
  emits no_tunnel_call anything
    (processRequests W proxy handle fuel ctx remoteAddr req downstream
       buffered (nextHTTP W upstream)).
Proof.
  apply processRequests_plain with (Inv := fun _ => True); try assumption;
    auto.
  - intros e He. destruct e; cbn in *; tauto.
  - intros c r _. apply emits_nextHTTP; cbn; auto.
Qed.

(** X13.  On a connection that forwards plain HTTP (a filter chain that
    forwards to [next], the transport as terminal step, no upstream in the
    context), a request with the close flag set is the last one: after it
    the loop reads no further request.  The loop tests for the hand-off to a
    tunnel before it tests the close flag, so this holds for requests that
    start no tunnel. *)
Theorem request_close_ends_loop (W : World) (proxy : Opts)
    (handle : Context -> Reader -> Conn -> option Conn -> M error)
    (fuel : nat) (ctx : Context) (remoteAddr : string) (req : Request)
    (downstream : Conn) (buffered : Reader) (upstream : option Conn)
    (Hfwd : forall c r n, Filter_Apply proxy c r n = n c r)
    (Hctx : no_upstream ctx)
    (Hclose : Close req = true) :
  emits not_ReadRequest anything
    (processRequests W proxy handle fuel ctx remoteAddr req downstream
       buffered (nextHTTP W upstream)).
Proof.
  destruct fuel as [|fuel]; cbn [processRequests];
    [apply emits_out_of_fuel|].
  assert (Hwrite : forall e, write_call e -> not_ReadRequest e)
    by (intros e He; destruct e; cbn in *; tauto).
  fold (backfilled ctx req). rewrite Hfwd.
  apply emits_bind with (Q := same_context ctx);
    [apply emits_nextHTTP; cbn; auto|].
  intros [[resp ctx'] err] Hsame. unfold same_context in Hsame.
  cbn in Hsame. subst ctx'.
  apply emits_bind with (Q := anything).
  { destruct err as [e|], resp as [r|];
      first [ now apply emits_writeResponse
            | destruct (call_OnError proxy ctx _ false e);
              [now apply emits_writeResponse | now apply emits_ret]
            | now apply emits_ret ]. }
  intros writeErr _. destruct writeErr as [werr|].
  { destruct (isUnexpected (Some werr)); now apply emits_ret. }
  apply emits_bind with (Q := anything); [now apply emits_query|].
  intros b _. rewrite (no_upstream_not_connect ctx Hctx).
  rewrite Close_backfilled, Hclose. now apply emits_ret.
Qed.

(** The close flag of a CONNECT does not end the connection: the loop hands
    over to the tunnel first. *)
Example close_flag_does_not_stop_a_tunnel :
  let W := sample_world (inl origin) false (inr EOF, []) in
  Close closing_connect = true
  /\ map step_of
       (snd (processRequests W eager_proxy (returning None) 2 background
               "10.0.0.9:4000" closing_connect client (ConnReader client)
               (nextCONNECT W eager_proxy client) []))
     = [SWrite 200; SLog; SDial; SGet 3; SGet 4; SPipe; SPut 4; SPut 3;
        SClose origin].
Proof. vm_compute. split; reflexivity. Qed.

(** ** More on the tunnel *)

(** X14.  When the tunnel has to dial and the dial fails, it returns the
    dial error as it is and has done nothing else: nothing is closed, no
    buffer is taken. *)
Theorem tunnel_dial_failure (W : World) (proxy : Opts)
    (handle : Context -> Reader -> Conn -> option Conn -> M error)
    (ctx : Context) (addr : string) (downstream : Conn) (t : Trace)
    (err : GoError)
    (Hdial : w_dial W t true "tcp" addr = inr err) :
  proceedWithConnect W proxy handle ctx addr None downstream t
  = (Some (Some err), (t ++ [EvDial true "tcp" addr])%list).
Proof.
  unfold proceedWithConnect, Dial. run_monad. cbv beta. now rewrite Hdial.
Qed.

Lemma tunnel_dial_failure_witness :
  proceedWithConnect (sample_world (inr refused) false (inr EOF, []))
    eager_proxy (returning None) background "example:443" None
    client []
  = (Some (Some refused), [EvDial true "tcp" "example:443"]).
Proof.
  exact (tunnel_dial_failure (sample_world (inr refused) false (inr EOF, []))
           eager_proxy (returning None) background "example:443"
           client [] refused eq_refl).
Defined.

Lemma plain_tunnel_run (W : World) (proxy : Opts) handle ctx addr upstream
    downstream t u0 :
  mitmIC proxy = false ->
  tunnel_upstream W upstream addr t = inl u0 ->
  let start := tunnel_start upstream addr t in
  let bufOut := w_get W start in
  let bufIn := w_get W (start ++ [EvGet bufOut])%list in
  let copied := w_bidi W (start ++ [EvGet bufOut; EvGet bufIn])%list
                  u0 downstream in
  exists tail,
    proceedWithConnect W proxy handle ctx addr upstream downstream t
    = (Some (if isUnexpected (snd copied)
             then Some (errors_New W "Error piping data to downstream: "
                                   (snd copied))
             else if isUnexpected (fst copied)
             then Some (errors_New W "Error piping data to upstream: "
                                   (fst copied))
             else None),
       (start ++ [EvGet bufOut; EvGet bufIn;
                  EvBidiCopy u0 downstream bufOut bufIn;
                  EvPut bufIn; EvPut bufOut; EvClose u0] ++ tail)%list)
    /\ close_tail "Error closing upstream connection" tail.
Proof.
  intros Hno Hup. cbv zeta.
  rewrite (proceedWithConnect_start _ _ _ _ _ _ _ _ _ Hup).
  set (start := tunnel_start upstream addr t).
  unfold mitmStage. rewrite Hno.
  unfold pipeData, conn_Close, BufferSource_Get, BufferSource_Put.
  run_monad. cbv beta iota. rewrite <- !app_assoc. cbn [app].
  destruct (w_bidi W _ u0 downstream) as [writeErr readErr].
  cbn [fst snd]. cbv beta iota.
  destruct (isUnexpected readErr); [|destruct (isUnexpected writeErr)];
    cbv beta iota; rewrite <- ?app_assoc; cbn [app];
    match goal with
    | |- context [w_close W ?tr u0] => destruct (w_close W tr u0)
    end; cbn; rewrite <- ?app_assoc; cbn [app];
    eexists; (split; [reflexivity|]); first [now left | now right].
Qed.

(** X15.  Without an interceptor the tunnel is: two buffers taken, one
    two-way copy between the upstream connection and the client, both
    buffers given back, the upstream connection closed.  It returns no error
    exactly when neither end of the copy reports an unexpected error; the
    error of the client side is looked at first. *)
Theorem plain_tunnel (W : World) (proxy : Opts)
    (handle : Context -> Reader -> Conn -> option Conn -> M error)
    (ctx : Context) (addr : string) (upstream : option Conn)
    (downstream : Conn) (t : Trace) (u0 : Conn)
    (Hnone : mitmIC proxy = false)
    (Hup : tunnel_upstream W upstream addr t = inl u0) :
  let start := tunnel_start upstream addr t in
  let bufOut := w_get W start in
  let bufIn := w_get W (start ++ [EvGet bufOut])%list in
  let copied := w_bidi W (start ++ [EvGet bufOut; EvGet bufIn])%list
                  u0 downstream in
  exists tail,
    proceedWithConnect W proxy handle ctx addr upstream downstream t
    = (Some (if isUnexpected (snd copied)
             then Some (errors_New W "Error piping data to downstream: "
                                   (snd copied))
             else if isUnexpected (fst copied)
             then Some (errors_New W "Error piping data to upstream: "
                                   (fst copied))
             else None),
       (start ++ [EvGet bufOut; EvGet bufIn;
                  EvBidiCopy u0 downstream bufOut bufIn;
                  EvPut bufIn; EvPut bufOut; EvClose u0] ++ tail)%list)
    /\ close_tail "Error closing upstream connection" tail.
Proof. now apply plain_tunnel_run. Qed.

Lemma plain_tunnel_witness :
  exists tail,
    proceedWithConnect (sample_world (inl origin) false (inr EOF, []))
      eager_proxy (returning None) background "example:443"
      (Some origin) client []
    = (Some None,
       ([EvGet 0; EvGet 1; EvBidiCopy origin client 0 1; EvPut 1; EvPut 0;
         EvClose origin] ++ tail)%list)
    /\ close_tail "Error closing upstream connection" tail.
Proof.
  exact (plain_tunnel (sample_world (inl origin) false (inr EOF, []))
           eager_proxy (returning None) background "example:443"
           (Some origin) client [] origin eq_refl eq_refl).
Defined.

Lemma mitmStage_upstream (W : World) (proxy : Opts) handle ctx addr upstream
    downstream t :
  let u := final_upstream W proxy t downstream upstream in
  (exists pre o,
      mitmStage W proxy handle ctx addr upstream downstream t
      = (Some o, (t ++ pre)%list)
      /\ outcome_upstream o = u)
  \/ (exists pre c r d,
        mitmStage W proxy handle ctx addr upstream downstream t
        = (res ← handle c r d (Some u); mret (Returned res u)) (t ++ pre)%list).
Proof.
  cbv zeta. unfold final_upstream, mitmStage, MITM. run_monad. cbv beta.
  destruct (mitmIC proxy).
  2:{ left. exists [], (FallThrough None downstream upstream).
      now rewrite app_nil_r. }
  destruct (w_mitm W t downstream upstream) as [[[d' u'] mitming]|err].
  2:{ left. eexists [_; _], _. rewrite <- ?app_assoc. split; reflexivity. }
  cbv beta iota zeta. destruct mitming.
  2:{ left. eexists [_], _. split; reflexivity. }
  destruct (w_handshake W _ u') as [herr|].
  { left. eexists [_; _; _], _. rewrite <- ?app_assoc. split; reflexivity. }
  destruct (w_peek W _ d') as [peek consumed].
  cbv beta iota. destruct (Rereader consumed) as [rr|rrErr].
  2:{ left. eexists [_; _; _], _. rewrite <- ?app_assoc. split; reflexivity. }
  destruct peek as [parsed|perr].
  - right. eexists [_; _; _], _, _, _.
    rewrite <- ?app_assoc. cbn [app]. reflexivity.
  - left. eexists [_; _; _], _. rewrite <- ?app_assoc. split; reflexivity.
Qed.

(** X16.  Once the tunnel has an upstream connection, every return closes
    it: the close is the last call of the run but for the log line of a
    failed close, and it closes the connection the tunnel holds at that
    point, the one MITM handed back where MITM replaced it. *)
Theorem upstream_closed_on_every_return (W : World) (proxy : Opts)
    (handle : Context -> Reader -> Conn -> option Conn -> M error)
    (ctx : Context) (addr : string) (upstream : option Conn)
    (downstream : Conn) (t : Trace) (u0 : Conn) (res : error)
    (Hup : tunnel_upstream W upstream addr t = inl u0)
    (Hret : fst (proceedWithConnect W proxy handle ctx addr upstream
                   downstream t) = Some res) :
  exists pre tail,
    snd (proceedWithConnect W proxy handle ctx addr upstream downstream t)
    = (pre ++ EvClose (final_upstream W proxy (tunnel_start upstream addr t)
                         downstream u0) :: tail)%list
    /\ close_tail "Error closing upstream connection" tail.
Proof.
  remember (proceedWithConnect W proxy handle ctx addr upstream downstream t)
    as run eqn:Hrun.
  rewrite (proceedWithConnect_start _ _ _ _ _ _ _ _ _ Hup) in Hrun.
  set (start := tunnel_start upstream addr t) in *.
  set (u := final_upstream W proxy start downstream u0).
  destruct (mitmStage_upstream W proxy handle ctx addr u0 downstream start)
    as [(pre & o & Hm & Ho) | (pre & c & r & d & Hm)];
    fold u in Ho || fold u in Hm.
  - destruct o as [result up|rr d up]; cbn in Ho; subst up.
    + erewrite bind_step in Hrun
        by (erewrite bind_step by exact Hm; reflexivity).
      cbv beta iota in Hrun.
      destruct (close_upstream_run W result u (start ++ pre)%list)
        as (tail & Hc & Htail).
      rewrite Hc in Hrun. subst run. exists (start ++ pre)%list, tail.
      split; [reflexivity | exact Htail].
    + destruct (pipeData_run W rr u d (start ++ pre)%list)
        as (result & b1 & b2 & mid & Hp & Hmid).
      erewrite bind_step in Hrun
        by (erewrite bind_step by exact Hm; cbv beta iota;
            erewrite bind_step by exact Hp; reflexivity).
      cbv beta iota in Hrun.
      match type of Hrun with
      | context [(_ ≫= _) ?tr] =>
          destruct (close_upstream_run W result u tr) as (tail & Hc & Htail)
      end.
      rewrite Hc in Hrun. subst run. eexists _, tail.
      split; [reflexivity | exact Htail].
  - unfold mbind at 1, M_bind at 1, bind at 1 in Hrun.
    unfold mbind at 1, M_bind at 1, bind at 1 in Hrun.
    rewrite Hm in Hrun.
    unfold mbind at 1, M_bind at 1, bind at 1 in Hrun.
    destruct (handle c r d (Some u) (start ++ pre)%list) as [[res'|] t'].
    + cbn [mret M_ret ret] in Hrun. cbv beta iota in Hrun.
      destruct (close_upstream_run W res' u t') as (tail & Hc & Htail).
      rewrite Hc in Hrun. subst run. exists t', tail.
      split; [reflexivity | exact Htail].
    + subst run. cbn in Hret. discriminate.
Qed.

Lemma upstream_closed_on_every_return_witness :
  exists pre tail,
    snd (proceedWithConnect
           (sample_world (inl origin) true (inl (request_with ∅), []))
           mitm_proxy (returning None) background "example:443"
           None client [])
    = (pre ++ EvClose origin :: tail)%list
    /\ close_tail "Error closing upstream connection" tail.
Proof.
  exact (upstream_closed_on_every_return
           (sample_world (inl origin) true (inl (request_with ∅), []))
           mitm_proxy (returning None) background "example:443"
           None client [] origin None eq_refl
           ltac:(vm_compute; reflexivity)).
Defined.

Lemma Rereader_overflow (consumed : list Byte.byte) :
  (maxHTTPSize < Z.of_nat (length consumed))%Z ->
  Rereader consumed = inr ErrOverflowed.
Proof.
  intros Hover. unfold Rereader.
  destruct (Z.ltb_spec maxHTTPSize (Z.of_nat (length consumed)));
    [reflexivity | lia].
Qed.

(** X17.  Under MITM, when the read of the first request took more bytes
    than the replay buffer holds, the tunnel gives up, whether or not the
    request parsed: it returns the re-read error, re-enters nothing, takes no
    buffer, copies nothing and closes the upstream connection. *)
Theorem mitm_overflow_aborts (W : World) (proxy : Opts)
    (handle : Context -> Reader -> Conn -> option Conn -> M error)
    (ctx : Context) (addr : string) (upstream : option Conn)
    (downstream : Conn) (t : Trace) (u0 d' u' : Conn)
    (peek : Request + GoError) (consumed : list Byte.byte)
    (Hinstalled : mitmIC proxy = true)
    (Hup : tunnel_upstream W upstream addr t = inl u0)
    (Hmitm : w_mitm W (tunnel_start upstream addr t) downstream u0
             = inl (d', u', true))
    (Hshake : w_handshake W
                (tunnel_start upstream addr t ++ [EvMITM downstream u0])%list u'
              = None)
    (Hpeek : w_peek W
               (tunnel_start upstream addr t
                ++ [EvMITM downstream u0; EvHandshake u'])%list d'
             = (peek, consumed))
    (Hover : (maxHTTPSize < Z.of_nat (length consumed))%Z) :
  exists tail,
    proceedWithConnect W proxy handle ctx addr upstream downstream t
    = (Some (Some (errors_New W "Unable to re-read data: " (Some ErrOverflowed))),
       (tunnel_start upstream addr t
        ++ [EvMITM downstream u0; EvHandshake u'; EvPeekRequest d';
            EvClose u'] ++ tail)%list)
    /\ close_tail "Error closing upstream connection" tail.
Proof.
  rewrite (proceedWithConnect_start _ _ _ _ _ _ _ _ _ Hup).
  set (t0 := tunnel_start upstream addr t) in *.
  unfold mitmStage, MITM, conn_Close.
  rewrite Hinstalled. run_monad. cbv beta iota.
  rewrite Hmitm. cbv beta iota zeta. rewrite Hshake. cbv beta iota.
  rewrite <- !app_assoc. cbn [app]. rewrite Hpeek. cbv beta iota.
  rewrite (Rereader_overflow _ Hover). cbv beta iota.
  rewrite <- ?app_assoc. cbn [app].
  match goal with
  | |- context [w_close W ?tr u'] => destruct (w_close W tr u')
  end; cbn; rewrite <- ?app_assoc; cbn [app];
    eexists; (split; [reflexivity|]); first [now left | now right].
Qed.

Lemma mitm_overflow_aborts_witness :
  exists tail,
    proceedWithConnect
      (sample_world (inl origin) true (inl (request_with ∅), too_many_bytes))
      mitm_proxy (returning None) background "example:443"
      (Some origin) client []
    = (Some (Some (sample_errors_New "Unable to re-read data: "
                     (Some ErrOverflowed))),
       ([EvMITM client origin; EvHandshake origin; EvPeekRequest client;
         EvClose origin] ++ tail)%list)
    /\ close_tail "Error closing upstream connection" tail.
Proof.
  exact (mitm_overflow_aborts
           (sample_world (inl origin) true (inl (request_with ∅), too_many_bytes))
           mitm_proxy (returning None) background "example:443"
           (Some origin) client [] origin client origin
           (inl (request_with ∅)) too_many_bytes
           eq_refl eq_refl eq_refl eq_refl eq_refl
           ltac:(vm_compute; reflexivity)).
Defined.

(** X18.  Under MITM, when the decrypted stream starts with a request that
    parses and fits the replay buffer, the tunnel hands over to [handle]:
    with a context that carries neither upstream connection nor upstream
    address, a reader that gives the bytes already read and then the rest of
    the decrypted stream, and the upstream connection.  What [handle]
    returns is returned, after the upstream connection is closed. *)
Theorem mitm_http_reenters_handle (W : World) (proxy : Opts)
    (handle : Context -> Reader -> Conn -> option Conn -> M error)
    (ctx : Context) (addr : string) (upstream : option Conn)
    (downstream : Conn) (t : Trace) (u0 d' u' : Conn)
    (parsed : Request) (consumed : list Byte.byte)
    (Hinstalled : mitmIC proxy = true)
    (Hup : tunnel_upstream W upstream addr t = inl u0)
    (Hmitm : w_mitm W (tunnel_start upstream addr t) downstream u0
             = inl (d', u', true))
    (Hshake : w_handshake W
                (tunnel_start upstream addr t ++ [EvMITM downstream u0])%list u'
              = None)
    (Hpeek : w_peek W
               (tunnel_start upstream addr t
                ++ [EvMITM downstream u0; EvHandshake u'])%list d'
             = (inl parsed, consumed))
    (Hfit : (Z.of_nat (length consumed) <= maxHTTPSize)%Z) :
  let peeked := (tunnel_start upstream addr t
                 ++ [EvMITM downstream u0; EvHandshake u';
                     EvPeekRequest d'])%list in
  let ctx0 := WithUpstreamAddr None (WithUpstream None ctx) in
  upstreamConn ctx0 = None
  /\ upstreamAddr ctx0 = ""
  /\ noRespondOkay ctx0 = noRespondOkay ctx
  /\ match handle ctx0 (MultiReader consumed (ConnReader d')) d' (Some u')
             peeked with
     | (Some res, t') =>
         exists tail,
           proceedWithConnect W proxy handle ctx addr upstream downstream t
           = (Some res, (t' ++ EvClose u' :: tail)%list)
           /\ close_tail "Error closing upstream connection" tail
     | (None, t') =>
         proceedWithConnect W proxy handle ctx addr upstream downstream t
         = (None, t')
     end.
Proof.
  cbv zeta. split; [reflexivity|]. split; [reflexivity|].
  split; [reflexivity|].
  rewrite (proceedWithConnect_start _ _ _ _ _ _ _ _ _ Hup).
  set (t0 := tunnel_start upstream addr t) in *.
  unfold mitmStage, MITM, conn_Close.
  rewrite Hinstalled. run_monad. cbv beta iota.
  rewrite Hmitm. cbv beta iota zeta. rewrite Hshake. cbv beta iota.
  rewrite <- !app_assoc. cbn [app]. rewrite Hpeek. cbv beta iota.
  rewrite (Rereader_fits _ Hfit). cbv beta iota.
  rewrite <- ?app_assoc. cbn [app].
  destruct (handle _ _ d' (Some u') _) as [[res|] t'].
  - cbv beta iota.
    destruct (w_close W t' u'); cbn; rewrite <- ?app_assoc; cbn [app];
      eexists; (split; [reflexivity|]); first [now left | now right].
  - reflexivity.
Qed.

Lemma mitm_http_reenters_handle_witness :
  exists tail,
    proceedWithConnect
      (sample_world (inl origin) true (inl (request_with ∅), [Byte.x47]))
      mitm_proxy (returning (Some refused)) background "example:443"
      (Some origin) client []
    = (Some (Some refused),
       ([EvMITM client origin; EvHandshake origin; EvPeekRequest client]
        ++ EvClose origin :: tail)%list)
    /\ close_tail "Error closing upstream connection" tail.
Proof.
  pose proof (mitm_http_reenters_handle
                (sample_world (inl origin) true (inl (request_with ∅), [Byte.x47]))
                mitm_proxy (returning (Some refused)) background
                "example:443" (Some origin) client [] origin client origin
                (request_with ∅) [Byte.x47]
                eq_refl eq_refl eq_refl eq_refl eq_refl
                ltac:(vm_compute; discriminate)) as H.
  cbv zeta in H. exact (proj2 (proj2 (proj2 H))).
Defined.

(** ** More on [handle] *)

(** X19.  Every return of [handle] closes the downstream connection it was
    given: the close is the last call of the run but for the log line of a
    failed close. *)
Theorem handle_closes_downstream (W : World) (proxy : Opts) (fuel : nat)
    (ctx : Context) (downstreamIn : Reader) (downstream : Conn)
    (upstream : option Conn) (t : Trace) (res : error)
    (Hret : fst (handle W proxy fuel ctx downstreamIn downstream upstream t)
            = Some res) :
  exists pre tail,
    snd (handle W proxy fuel ctx downstreamIn downstream upstream t)
    = (pre ++ EvClose downstream :: tail)%list
    /\ close_tail "Error closing downstream connection" tail.
Proof.
  destruct fuel as [|fuel]; [discriminate|].
  cbn [handle] in *. unfold handle_body in *.
  unfold mbind at 1, M_bind at 1, bind at 1 in Hret.
  unfold mbind at 1, M_bind at 1, bind at 1.
  destruct (handleRequests W proxy (handle W proxy fuel) (S fuel) ctx
              downstreamIn downstream upstream t) as [[r|] t'];
    [|discriminate].
  clear Hret. unfold conn_Close. run_monad. cbv beta.
  destruct (w_close W t' downstream); cbn; rewrite <- ?app_assoc; cbn [app];
    exists t'; eexists; (split; [reflexivity|]); first [now left | now right].
Qed.

Lemma handle_closes_downstream_witness :
  exists pre tail,
    snd (handle (sample_world (inl origin) false (inr EOF, [])) eager_proxy 2
           background (ConnReader client) client None [])
    = (pre ++ EvClose client :: tail)%list
    /\ close_tail "Error closing downstream connection" tail.
Proof.
  exact (handle_closes_downstream
           (sample_world (inl origin) false (inr EOF, [])) eager_proxy 2
           background (ConnReader client) client None [] None
           ltac:(vm_compute; reflexivity)).
Defined.

Lemma handleRequests_read_failure (W : World) (proxy : Opts) handle fuel ctx
    downstreamIn downstream upstream t err :
  w_readRequest W t downstreamIn = inr err ->
  handleRequests W proxy handle fuel ctx downstreamIn downstream upstream t
  = (if isUnexpected (Some err)
     then
       _ ← match call_OnError proxy (WrapContext ctx downstream) None true err
           with
           | Some errResp =>
               _ ← writeResponse W proxy (ToConn downstream) None errResp;
               mret tt
           | None => mret tt
           end;
       mret (Some (errors_New W "Error in initial ReadRequest: " (Some err)))
     else mret None) (t ++ [EvReadRequest downstreamIn])%list.
Proof.
  intros Hread. unfold handleRequests, ReadRequest.
  unfold mbind at 1, M_bind at 1, bind at 1, call at 1. cbv beta.
  rewrite Hread. reflexivity.
Qed.

(** X20.  When the first read on a connection fails, [handle] serves
    nothing.  An expected failure (a clean end of stream) returns no error
    and writes nothing.  An unexpected one returns the wrapped read error;
    the error handler is asked with the reading flag set, and only the
    response it gives, if any, is written, straight to the client.  The
    downstream connection is closed either way. *)
Theorem handle_initial_read_failure (W : World) (proxy : Opts) (fuel : nat)
    (ctx : Context) (downstreamIn : Reader) (downstream : Conn)
    (upstream : option Conn) (t : Trace) (err : GoError)
    (Hread : w_readRequest W t downstreamIn = inr err) :
  let run := handle W proxy (S fuel) ctx downstreamIn downstream upstream t in
  let read := (t ++ [EvReadRequest downstreamIn])%list in
  let answer := if isUnexpected (Some err)
                then call_OnError proxy (WrapContext ctx downstream) None
                       true err
                else None in
  fst run = Some (if isUnexpected (Some err)
                  then Some (errors_New W "Error in initial ReadRequest: "
                                        (Some err))
                  else None)
  /\ exists mid tail,
       snd run = (read ++ mid ++ EvClose downstream :: tail)%list
       /\ close_tail "Error closing downstream connection" tail
       /\ match answer with
          | None => mid = []
          | Some errResp =>
              exists more,
                mid = EvResponseWrite
                        (fst (responseOnWire W proxy (w_now W read)
                                (ToConn downstream) None errResp))
                        (snd (responseOnWire W proxy (w_now W read)
                                (ToConn downstream) None errResp))
                      :: more
                /\ Forall write_call more
          end.
Proof.
  cbv zeta. cbn [handle].
  set (read := (t ++ [EvReadRequest downstreamIn])%list).
  set (wrapped := errors_New W "Error in initial ReadRequest: " (Some err)).
  pose proof (handleRequests_read_failure W proxy (handle W proxy fuel)
                (S fuel) ctx downstreamIn downstream upstream t err Hread)
    as Hreq.
  fold read in Hreq. fold wrapped in Hreq.
  assert (Hcases :
            exists mid,
              handleRequests W proxy (handle W proxy fuel) (S fuel) ctx
                downstreamIn downstream upstream t
              = (Some (if isUnexpected (Some err) then Some wrapped else None),
                 (read ++ mid)%list)
              /\ match (if isUnexpected (Some err)
                        then call_OnError proxy (WrapContext ctx downstream)
                               None true err
                        else None) with
                 | None => mid = []
                 | Some errResp =>
                     exists more,
                       mid = EvResponseWrite
                               (fst (responseOnWire W proxy (w_now W read)
                                       (ToConn downstream) None errResp))
                               (snd (responseOnWire W proxy (w_now W read)
                                       (ToConn downstream) None errResp))
                             :: more
                       /\ Forall write_call more
                 end).
  { rewrite Hreq. destruct (isUnexpected (Some err)).
    2:{ exists []. rewrite app_nil_r. split; reflexivity. }
    destruct (call_OnError proxy (WrapContext ctx downstream) None true err)
      as [errResp|].
    2:{ exists []. rewrite app_nil_r. split; reflexivity. }
    unfold writeResponse. run_monad. cbv beta.
    destruct (responseOnWire W proxy (w_now W read) (ToConn downstream) None
                errResp) as [out wire].
    cbn [fst snd].
    destruct (w_write W read out wire), (Body wire); cbn;
      rewrite <- ?app_assoc; cbn [app]; eexists (_ :: _);
      (split; [reflexivity|]); eexists; (split; [reflexivity|]);
      repeat constructor. }
  destruct Hcases as (mid & Hrun & Hmid).
  destruct (handle_body_returns W proxy (handle W proxy fuel) (S fuel) ctx
              downstreamIn downstream upstream t _ _ Hrun)
    as (tail & Hbody & Htail).
  rewrite Hbody. cbn [fst snd]. split; [reflexivity|].
  exists mid, tail. split; [now rewrite <- app_assoc|].
  split; [exact Htail | exact Hmid].
Qed.

Lemma handle_initial_read_failure_witness :
  fst (handle (sample_world (inl origin) false (inr EOF, [])) eager_proxy 1
         background (ConnReader client) client None
         [EvLog LDebug "accepted"])
  = Some None.
Proof.
  pose proof (handle_initial_read_failure
                (sample_world (inl origin) false (inr EOF, [])) eager_proxy 0
                background (ConnReader client) client None
                [EvLog LDebug "accepted"] EOF eq_refl) as H.
  cbv zeta in H. exact (proj1 H).
Defined.

(** ** The synthetic CONNECT *)

Lemma starts_bind {A B} (m : M A) (k : A -> M B) (t : Trace) pre :
  starts_with_calls m t pre -> (forall a, extends (k a)) ->
  starts_with_calls (m ≫= k) t pre.
Proof.
  intros [rest Hm] Hk. unfold starts_with_calls, mbind, M_bind, bind.
  destruct (m t) as [[a|] t1]; cbn in Hm; subst t1.
  - destruct (Hk a (t ++ pre ++ rest)%list) as [new Hnew]. rewrite Hnew.
    exists (rest ++ new)%list. now rewrite <- !app_assoc.
  - now exists rest.
Qed.

Lemma nextCONNECT_eager_suppressed (W : World) (proxy : Opts)
    (downstream : Conn) (ctx : Context) (req : Request) (t : Trace) marker :
  OKWaitsForUpstream proxy = false ->
  noRespondOkay ctx = Some marker ->
  nextCONNECT W proxy downstream ctx req t
  = (Some (None, WithUpstreamAddr (Some (UHost (RURL req))) ctx, None), t).
Proof.
  intros Hwait Hok. unfold nextCONNECT. rewrite Hwait, Hok. reflexivity.
Qed.

(** With the suppress-OK marker the loop writes nothing for the CONNECT and
    goes straight on to the tunnel. *)
Lemma processRequests_suppressed (W : World) (proxy : Opts) handle fuel ctx
    remoteAddr req downstream buffered t marker :
  OKWaitsForUpstream proxy = false ->
  (forall c r n, Filter_Apply proxy c r n = n c r) ->
  noRespondOkay ctx = Some marker ->
  String.eqb (UHost (RURL (backfilled ctx req))) "" = false ->
  processRequests W proxy handle (S fuel) ctx remoteAddr req downstream
    buffered (nextCONNECT W proxy downstream) t
  = proceedWithConnect W proxy handle
      (WithUpstreamAddr (Some (UHost (RURL (backfilled ctx req)))) ctx)
      (UHost (RURL (backfilled ctx req))) (upstreamConn ctx)
      (if (0 <? length (w_buffered W t))%nat
       then Preconn downstream (w_buffered W t) else downstream) t.
Proof.
  intros Heager Hfwd Hok Hne. cbn [processRequests].
  fold (backfilled ctx req). rewrite Hfwd.
  erewrite bind_step by (eapply nextCONNECT_eager_suppressed; eassumption).
  cbv beta iota. erewrite bind_step by reflexivity. cbv beta iota.
  erewrite bind_step by reflexivity. cbv beta iota.
  change (upstreamAddr (WithUpstreamAddr
                          (Some (UHost (RURL (backfilled ctx req)))) ctx))
    with (UHost (RURL (backfilled ctx req))).
  rewrite Hne. cbn [negb]. rewrite orb_true_r. reflexivity.
Qed.

Lemma backfilled_host ctx req :
  String.eqb (UHost (RURL req)) "" = false ->
  UHost (RURL (backfilled ctx req)) = UHost (RURL req).
Proof.
  intros Hne. unfold backfilled.
  destruct (String.eqb (Scheme (RURL req)) ""); cbn [with_URL RURL with_Scheme UHost];
    rewrite Hne; destruct (String.eqb (Host _) ""); reflexivity.
Qed.

(** X21.  [Connect] makes the engine read the request line it puts in front
    of the stream; when that parses as the CONNECT to [origin], the engine,
    in eager-OK mode, writes nothing to the connection: the next call after
    the read is the dial of [origin]. *)
Theorem Connect_writes_no_OK (W : World) (proxy : Opts)
    (bufferLen : Trace -> nat) (fuel : nat) (ctx : Context) (in_ : Reader)
    (conn : Conn) (origin : string) (t : Trace) (req : Request)
    (Heager : OKWaitsForUpstream proxy = false)
    (Hfwd : forall c r n, Filter_Apply proxy c r n = n c r)
    (Hctx : upstreamValue ctx = None)
    (Hread : w_readRequest W t
               (MultiReader (list_byte_of_string (connectRequest origin)) in_)
             = inl req)
    (Hmethod : Method req = MethodConnect)
    (Hhost : UHost (RURL req) = origin)
    (Horigin : String.eqb origin "" = false) :
  starts_with_calls (Connect W proxy bufferLen (S fuel) ctx in_ conn origin) t
    [EvReadRequest
       (MultiReader (list_byte_of_string (connectRequest origin)) in_);
     EvDial true "tcp" origin].
Proof.
  unfold Connect, Handle. cbv zeta.
  set (pin := MultiReader (list_byte_of_string (connectRequest origin)) in_)
    in *.
  apply starts_bind.
  2:{ intros err. apply accounted_extends. accounted_auto. }
  cbn [handle]. unfold handle_body.
  apply starts_bind.
  2:{ intros err. apply accounted_extends. accounted_auto. }
  unfold starts_with_calls, handleRequests, ReadRequest.
  unfold mbind at 1, M_bind at 1, bind at 1, call at 1. cbv beta.
  rewrite Hread. cbv beta iota zeta.
  set (ctx1 := WithNoRespondOkay (Some "true") ctx).
  match goal with
  | |- context [processRequests W proxy _ _ ?c ?ra ?r conn pin] =>
      set (fctx := c); set (req1 := r); set (ra1 := ra)
  end.
  assert (Hm1 : Method req1 = MethodConnect).
  { unfold req1. destruct (w_remoteAddr W conn); exact Hmethod. }
  assert (Hh1 : UHost (RURL req1) = origin).
  { unfold req1. destruct (w_remoteAddr W conn); exact Hhost. }
  rewrite Hm1, String.eqb_refl.
  assert (Hok : noRespondOkay fctx = Some "true").
  { unfold fctx. destruct (String.eqb (origURLScheme ctx1) ""); reflexivity. }
  assert (Hup : upstreamConn fctx = None).
  { unfold fctx. destruct (String.eqb (origURLScheme ctx1) ""); exact Hctx. }
  assert (Hne : String.eqb (UHost (RURL (backfilled fctx req1))) "" = false).
  { rewrite backfilled_host; rewrite Hh1; exact Horigin. }
  rewrite (processRequests_suppressed W proxy _ fuel fctx ra1 req1 conn pin
             _ "true" Heager Hfwd Hok Hne).
  rewrite Hup, backfilled_host by (rewrite Hh1; exact Horigin).
  rewrite Hh1.
  match goal with
  | |- context [proceedWithConnect W proxy _ ?c origin None ?d ?tr] =>
      destruct (tunnel_dials_first W proxy Hfwd fuel c origin d tr)
        as [rest Hrest]
  end.
  rewrite Hrest. exists rest. rewrite <- app_assoc. reflexivity.
Qed.

Lemma Connect_writes_no_OK_witness :
  starts_with_calls
    (Connect (sample_world (inr refused) false (inr EOF, [])) eager_proxy
       (fun _ => 0) 1 background (StreamReader 7) client "example:443") []
    [EvReadRequest
       (MultiReader (list_byte_of_string (connectRequest "example:443"))
          (StreamReader 7));
     EvDial true "tcp" "example:443"].
Proof.
  exact (Connect_writes_no_OK
           (sample_world (inr refused) false (inr EOF, [])) eager_proxy
           (fun _ => 0) 0 background (StreamReader 7) client "example:443" []
           connect_request eq_refl (fun _ _ _ => eq_refl) eq_refl eq_refl
           eq_refl eq_refl eq_refl).
Defined.

(** The bytes [Connect] puts in front of the stream. *)
Example connectRequest_bytes :
  connectRequest "h:1"
  = "CONNECT h:1 HTTP/1.1" ++ CRLF ++ "Host: h:1" ++ CRLF ++ CRLF.
Proof. reflexivity. Qed.

(** ** A forward that fails *)

Lemma nextHTTP_dial_failure (W : World) (ctx : Context) (req : Request)
    (t : Trace) err :
  let prepared := prepareRequest (w_range W) req in
  w_idle W (t ++ [EvRequestAware])%list prepared = None ->
  w_dial W (t ++ [EvRequestAware])%list false "tcp" (UHost (RURL prepared))
  = inr err ->
  nextHTTP W None ctx req t
  = (Some (None, ctx, Some err),
     (t ++ [EvRequestAware; EvDial false "tcp" (UHost (RURL prepared));
            EvResponseAware])%list).
Proof.
  cbv zeta. intros Hidle Hdial. unfold nextHTTP, RoundTrip, Dial. run_monad.
  cbv beta. rewrite Hidle. cbv beta iota. rewrite Hdial. cbn.
  now rewrite <- !app_assoc.
Qed.

(** X22.  When the dial for a plain request fails and no error handler is
    set, nothing at all is written to the client for that request: after the
    failed dial the loop ends, if the request asked to close, or goes on to
    read the next request. *)
Theorem failed_forward_writes_nothing (W : World) (proxy : Opts)
    (depth fuel : nat) (ctx : Context) (remoteAddr : string) (req : Request)
    (downstream : Conn) (buffered : Reader) (t : Trace) (err : GoError)
    (Hfwd : forall c r n, Filter_Apply proxy c r n = n c r)
    (Hctx : no_upstream ctx)
    (Hdefault : OnError proxy = None)
    (Hidle : w_idle W (t ++ [EvRequestAware])%list
               (prepareRequest (w_range W) (backfilled ctx req)) = None)
    (Hdial : w_dial W (t ++ [EvRequestAware])%list false "tcp"
               (UHost (RURL (prepareRequest (w_range W) (backfilled ctx req))))
             = inr err) :
  exists rest,
    snd (processRequests W proxy (handle W proxy depth) (S fuel) ctx
           remoteAddr req downstream buffered (nextHTTP W None) t)
    = (t ++ [EvRequestAware;
             EvDial false "tcp"
               (UHost (RURL (prepareRequest (w_range W) (backfilled ctx req))));
             EvResponseAware] ++ rest)%list
    /\ (rest = [] \/ exists rest', rest = EvReadRequest buffered :: rest').
Proof.
  cbn [processRequests]. fold (backfilled ctx req). rewrite Hfwd.
  erewrite bind_step by (apply nextHTTP_dial_failure; eassumption).
  cbv beta iota. unfold call_OnError. rewrite Hdefault.
  unfold defaultOnError. cbv beta iota.
  erewrite bind_step by reflexivity. cbv beta iota.
  erewrite bind_step by reflexivity. cbv beta iota.
  rewrite (no_upstream_not_connect ctx Hctx).
  destruct (Close (backfilled ctx req)).
  { exists []. split; [reflexivity | now left]. }
  replace (bool_decide (Some err = None)) with false
    by (symmetry; now apply bool_decide_eq_false).
  cbn [andb].
  unfold mbind at 1, M_bind at 1, bind at 1, ReadRequest at 1, call at 1.
  match goal with
  | |- exists rest, snd (?k (?tr ++ [?e])%list) = _ /\ _ =>
      assert (Hext : extends k)
  end.
  { pose proof (handle_accounted W proxy Hfwd depth) as Hh.
    pose proof (accounted_proceedWithConnect W proxy _ Hh).
    pose proof (accounted_processRequests W proxy _ Hh Hfwd).
    pose proof (accounted_nextHTTP W).
    pose proof (accounted_writeResponse W proxy).
    apply accounted_extends. accounted_auto. }
  match goal with
  | |- exists rest, snd (_ ?tr) = _ /\ _ => destruct (Hext tr) as [new Hnew]
  end.
  rewrite Hnew. exists (EvReadRequest buffered :: new).
  split; [now rewrite <- !app_assoc | right; now exists new].
Qed.

Lemma failed_forward_writes_nothing_witness :
  exists rest,
    snd (processRequests (sample_world (inr refused) false (inr EOF, []))
           eager_proxy
           (handle (sample_world (inr refused) false (inr EOF, []))
              eager_proxy 1)
           1 background "10.0.0.9:4000" (request_with ∅) client
           (ConnReader client) (nextHTTP
                                  (sample_world (inr refused) false (inr EOF, []))
                                  None) [])
    = ([] ++ [EvRequestAware; EvDial false "tcp" "h"; EvResponseAware]
       ++ rest)%list
    /\ (rest = [] \/ exists rest', rest = EvReadRequest (ConnReader client) :: rest').
Proof.
  exact (failed_forward_writes_nothing
           (sample_world (inr refused) false (inr EOF, [])) eager_proxy 1 0
           background "10.0.0.9:4000" (request_with ∅) client
           (ConnReader client) [] refused (fun _ _ _ => eq_refl)
           (conj eq_refl eq_refl) eq_refl eq_refl eq_refl).
Defined.

(** ** A CONNECT that waits for upstream *)

Lemma nextCONNECT_wait_dial_success (W : World) (proxy : Opts)
    (downstream : Conn) (ctx : Context) (req : Request) (t : Trace) up :
  OKWaitsForUpstream proxy = true ->
  noRespondOkay ctx = None ->
  w_dial W t true "tcp" (UHost (RURL req)) = inl up ->
  nextCONNECT W proxy downstream ctx req t
  = (Some (Some (emptyResponse StatusOK),
           WithUpstream (Some up)
             (WithUpstreamAddr (Some (UHost (RURL req))) ctx), None),
     (t ++ [EvDial true "tcp" (UHost (RURL req))])%list).
Proof.
  intros Hwait Hok Hdial. unfold nextCONNECT, Dial. run_monad.
  rewrite Hwait, Hok. cbn. rewrite Hdial. reflexivity.
Qed.

(** X23.  In wait-for-upstream mode without an interceptor, a CONNECT whose
    dial succeeds and whose 200 reaches the client runs as: one dial, the 200
    written, two buffers taken, one two-way copy over the connection that
    was dialed, the buffers given back, that connection closed.  The tunnel
    does not dial again. *)
Theorem wait_for_upstream_tunnel_run (W : World) (proxy : Opts)
    (depth fuel : nat) (ctx : Context) (remoteAddr : string) (req : Request)
    (downstream : Conn) (buffered : Reader) (t : Trace) (up : Conn)
    (Hwait : OKWaitsForUpstream proxy = true)
    (Hnone : mitmIC proxy = false)
    (Hfwd : forall c r n, Filter_Apply proxy c r n = n c r)
    (Hok : noRespondOkay ctx = None)
    (Hdial : w_dial W t true "tcp" (UHost (RURL (backfilled ctx req)))
             = inl up)
    (Hwrite : w_write W
                (t ++ [EvDial true "tcp" (UHost (RURL (backfilled ctx req)))])%list
                (TeeToBuffer downstream)
                (wireResponse W proxy
                   (w_now W (t ++ [EvDial true "tcp"
                                     (UHost (RURL (backfilled ctx req)))])%list)
                   (Some (backfilled ctx req)) StatusOK)
              = None) :
  exists wire res bufOut bufIn downstream' tail,
    processRequests W proxy (handle W proxy depth) (S fuel) ctx remoteAddr
      req downstream buffered (nextCONNECT W proxy downstream) t
    = (Some res,
       (t ++ [EvDial true "tcp" (UHost (RURL (backfilled ctx req)));
              EvResponseWrite (TeeToBuffer downstream) wire;
              EvLog LDebug "Wrote response";
              EvGet bufOut; EvGet bufIn;
              EvBidiCopy up downstream' bufOut bufIn;
              EvPut bufIn; EvPut bufOut; EvClose up] ++ tail)%list)
    /\ StatusCode wire = StatusOK
    /\ close_tail "Error closing upstream connection" tail.
Proof.
  cbn [processRequests]. fold (backfilled ctx req). rewrite Hfwd.
  erewrite bind_step by (apply nextCONNECT_wait_dial_success; eassumption).
  cbv beta iota.
  erewrite bind_step by (apply writeResponse_emptyResponse; reflexivity).
  rewrite Hwrite. cbv beta iota.
  erewrite bind_step by reflexivity. cbv beta iota.
  change (upstreamConn (WithUpstream (Some up) ?c)) with (Some up).
  replace (bool_decide (Some up ≠ None)) with true
    by (symmetry; now apply bool_decide_eq_true).
  cbn [orb].
  match goal with
  | |- context [proceedWithConnect W proxy ?h ?c ?a (Some up) ?d ?tr] =>
      destruct (plain_tunnel_run W proxy h c a (Some up) d tr up Hnone eq_refl)
        as (tail & Hrun & Htail)
  end.
  cbv zeta in Hrun. cbn [tunnel_start] in Hrun.
  eexists _, _, _, _, _, tail. split; [|split; [|exact Htail]].
  - rewrite Hrun. rewrite <- !app_assoc. cbn [app]. reflexivity.
  - reflexivity.
Qed.

Lemma wait_for_upstream_tunnel_run_witness :
  exists wire res bufOut bufIn downstream' tail,
    processRequests (sample_world (inl origin) false (inr EOF, []))
      waiting_proxy
      (handle (sample_world (inl origin) false (inr EOF, [])) waiting_proxy 1)
      1 background "10.0.0.9:4000" connect_request client (ConnReader client)
      (nextCONNECT (sample_world (inl origin) false (inr EOF, []))
         waiting_proxy client) []
    = (Some res,
       ([] ++ [EvDial true "tcp" "example:443";
               EvResponseWrite (TeeToBuffer client) wire;
               EvLog LDebug "Wrote response";
               EvGet bufOut; EvGet bufIn;
               EvBidiCopy origin downstream' bufOut bufIn;
               EvPut bufIn; EvPut bufOut; EvClose origin] ++ tail)%list)
    /\ StatusCode wire = StatusOK
    /\ close_tail "Error closing upstream connection" tail.
Proof.
  exact (wait_for_upstream_tunnel_run
           (sample_world (inl origin) false (inr EOF, [])) waiting_proxy 1 0
           background "10.0.0.9:4000" connect_request client
           (ConnReader client) [] origin eq_refl eq_refl
           (fun _ _ _ => eq_refl) eq_refl eq_refl eq_refl).
Defined.

(** ** The whole engine *)

(** X24.  Under a filter chain that forwards to [next], every run of
    [handle], tunnels within tunnels included and also a run the model stops
    for lack of fuel, only adds calls to the trace, and among them every
    [Put] gives back a buffer that is out and no buffer is left out. *)
Theorem engine_buffer_accounting (W : World) (proxy : Opts) (fuel : nat)
    (ctx : Context) (downstreamIn : Reader) (downstream : Conn)
    (upstream : option Conn) (t : Trace)
    (Hfwd : forall c r n, Filter_Apply proxy c r n = n c r) :
  exists new,
    snd (handle W proxy fuel ctx downstreamIn downstream upstream t)
    = (t ++ new)%list
    /\ accounting [] new = Some [].
Proof. now apply handle_accounted. Qed.

Lemma engine_buffer_accounting_witness :
  exists new,
    snd (handle (sample_world (inl origin) true
                   (inr (OtherError "malformed HTTP request"), [Byte.x16]))
           mitm_proxy 3 background (ConnReader client) client None [])
    = ([] ++ new)%list
    /\ accounting [] new = Some [].
Proof.
  exact (engine_buffer_accounting
           (sample_world (inl origin) true
              (inr (OtherError "malformed HTTP request"), [Byte.x16]))
           mitm_proxy 3 background (ConnReader client) client None []
           (fun _ _ _ => eq_refl)).
Defined.

(** ** The loop theorems at concrete inputs *)

Lemma forwarded_requests_keep_remote_address_witness :
  emits (from_remote "10.0.0.9:4000") anything
    (processRequests (sample_world (inl origin) false (inr EOF, []))
       eager_proxy (returning None) 3 background "10.0.0.9:4000"
       (request_with ∅) client (ConnReader client)
       (nextHTTP (sample_world (inl origin) false (inr EOF, [])) None)).
Proof.
  exact (forwarded_requests_keep_remote_address
           (sample_world (inl origin) false (inr EOF, [])) eager_proxy
           (returning None) 3 background "10.0.0.9:4000" (request_with ∅)
           client (ConnReader client) None (fun _ _ _ => eq_refl)
           (conj eq_refl eq_refl) eq_refl).
Defined.

Lemma supplied_upstream_never_dials_witness :
  emits (over_supplied origin) anything
    (processRequests (sample_world (inl origin) false (inr EOF, []))
       eager_proxy (returning None) 3 background "10.0.0.9:4000"
       (request_with ∅) client (ConnReader client)
       (nextHTTP (sample_world (inl origin) false (inr EOF, []))
          (Some origin))).
Proof.
  exact (supplied_upstream_never_dials
           (sample_world (inl origin) false (inr EOF, [])) eager_proxy
           (returning None) 3 background "10.0.0.9:4000" (request_with ∅)
           client (ConnReader client) origin (fun _ _ _ => eq_refl)
           (conj eq_refl eq_refl)).
Defined.

Lemma plain_http_never_tunnels_witness :
  emits no_tunnel_call anything
    (processRequests (sample_world (inl origin) false (inr EOF, []))
       eager_proxy (returning None) 3 background "10.0.0.9:4000"
       (request_with ∅) client (ConnReader client)
       (nextHTTP (sample_world (inl origin) false (inr EOF, [])) None)).
Proof.
  exact (plain_http_never_tunnels
           (sample_world (inl origin) false (inr EOF, [])) eager_proxy
           (returning None) 3 background "10.0.0.9:4000" (request_with ∅)
           client (ConnReader client) None (fun _ _ _ => eq_refl)
           (conj eq_refl eq_refl)).
Defined.

Lemma request_close_ends_loop_witness :
  emits not_ReadRequest anything
    (processRequests (sample_world (inl origin) false (inr EOF, []))
       eager_proxy (returning None) 3 background "10.0.0.9:4000"
       closing_request client (ConnReader client)
       (nextHTTP (sample_world (inl origin) false (inr EOF, [])) None)).
Proof.
  exact (request_close_ends_loop
           (sample_world (inl origin) false (inr EOF, [])) eager_proxy
           (returning None) 3 background "10.0.0.9:4000" closing_request
           client (ConnReader client) None (fun _ _ _ => eq_refl)
           (conj eq_refl eq_refl) eq_refl).
Defined.

(** A plain exchange on the sample world: the request goes out with the
    remote address and the connection is kept for the next request. *)
Example scenario_plain_http :
  let W := sample_world (inl origin) false (inr EOF, []) in
  map step_of
    (snd (processRequests W eager_proxy (returning None) 3 background
            "10.0.0.9:4000" (request_with ∅) client (ConnReader client)
            (nextHTTP W None) []))
  = [SOther; SDial; SOther; SOther; SOther; SWrite 200; SLog; SRead].
Proof. vm_compute. reflexivity. Qed.
